(** * local-meeting-recorder: the transcript editor, the recorder polling
    loop, the segment merge and the capture controller

  The front end (EditorWindow.tsx, App.tsx) is embedded from its source.
  JavaScript numbers are finite doubles.  A double is the rational [Q] it
  denotes: comparison, [Math.floor] and [%] are exact on doubles, a
  division is the exact quotient rounded to the nearest double, ties to
  even, and a whole number is printed with the fewest digits that read
  back as the same double.  Overflow to Infinity and NaN are outside the
  model.  Strings are [string]; [===] on strings is
  [String.eqb].  React state is an explicit record that every handler
  takes and returns; calls to the back end ([invoke]) go through an
  oracle and are logged. *)

From Stdlib Require Import List String Ascii ZArith QArith Qround Qminmax.
From Stdlib Require Import Qpower Qabs.
From Stdlib Require Import Lia Lqa Bool Sorted Permutation DecimalString.
Import ListNotations.

Local Open Scope string_scope.

(** ** JavaScript primitives used by the front end *)
Module Js.

Definition number := Q.

(** [Math.floor]. *)
Definition Math_floor (x : number) : Z := Qfloor x.

(** Rounding toward zero, as the quotient of [%] does. *)
Definition trunc (x : number) : Z :=
  if Qle_bool 0 x then Qfloor x else Qceiling x.

(** [a % b]: the remainder has the sign of the dividend. *)
Definition rem (a b : number) : number :=
  (a - b * inject_Z (trunc (a / b)))%Q.

(** [Number.prototype.toString] on an integral value. *)
Definition toString (n : Z) : string :=
  NilZero.string_of_int (Z.to_int n).

(** The first [n] characters of [fill] repeated; [rest] is what is left of
    the current copy. *)
Fixpoint cycle (n : nat) (fill rest : string) : string :=
  match n with
  | O => ""
  | S n' =>
      match rest with
      | String c r => String c (cycle n' fill r)
      | EmptyString =>
          match fill with
          | String c r => String c (cycle n' fill r)
          | EmptyString => ""
          end
      end
  end.

(** [String.prototype.padStart(targetLength, padString)]. *)
Definition padStart (targetLength : nat) (padString s : string) : string :=
  if (targetLength <=? String.length s)%nat then s
  else cycle (targetLength - String.length s) padString padString ++ s.

(** [Array.prototype.join(sep)]: R starts empty; before every element but
    the first the separator is appended, then the element. *)
Definition join_step (sep : string) (acc : nat * string) (x : string)
  : nat * string :=
  let (k, R) := acc in
  (S k, (if (k =? 0)%nat then R else R ++ sep) ++ x).

Definition join (sep : string) (l : list string) : string :=
  snd (fold_left (join_step sep) l (O, "")).

(** Every entry preceded by the separator: what the loop of [join] has
    appended after its first element. *)
Definition prefixed (sep : string) (l : list string) : string :=
  fold_right (fun x acc => sep ++ x ++ acc) "" l.

(** The line feed of the literal ["\n"]. *)
Definition LF : string := String (ascii_of_nat 10) EmptyString.

(** *** Doubles

    [2^c], for any whole [c]. *)
Definition pow2 (c : Z) : number := (2 ^ c)%Q.

(** The binary exponent of a positive number: [2^e <= x < 2^(e+1)]. *)
Definition ilog2 (x : number) : Z :=
  let e0 := (Z.log2 (Qnum x) - Z.log2 (Zpos (Qden x)))%Z in
  if Qle_bool (pow2 e0) x then e0 else (e0 - 1)%Z.

(** The nearest whole number, the even one of two. *)
Definition round_half_even (y : number) : Z :=
  let f := Qfloor y in
  match (y - inject_Z f ?= 1 # 2)%Q with
  | Lt => f
  | Gt => (f + 1)%Z
  | Eq => if Z.even f then f else (f + 1)%Z
  end.

(** The exponent of the spacing of the doubles around [x]: 53 significant
    bits, and no finer than [2^-1074]. *)
Definition quantum (x : number) : Z := (Z.max (ilog2 x) (-1022) - 52)%Z.

(** The double nearest to [x], ties to even. *)
Definition round_double (x : number) : number :=
  if Qeq_bool x 0 then 0%Q
  else
    let a := Qabs x in
    let c := quantum a in
    let r := (inject_Z (round_half_even (a / pow2 c)) * pow2 c)%Q in
    if Qle_bool 0 x then r else (- r)%Q.

(** [a / b] on doubles. *)
Definition fdiv (a b : number) : number := round_double (a / b).

(** Whether a rational is a double. *)
Definition is_double (x : number) : bool := Qeq_bool (round_double x) x.

(** Whether the decimal [s * p] reads back as the double [v]. *)
Definition reads_back (v s p : Z) : bool :=
  Qeq_bool (round_double (inject_Z (s * p))) (inject_Z v).

(** The fewest digits [k], and the number [s] they form, such that [s]
    followed by [nd - k] zeros reads back as [v]; of two such numbers the one
    nearer to [v], and the even one if they are as near. *)
Fixpoint shortest (fuel k nd : nat) (v : Z) : Z * nat :=
  match fuel with
  | O => (v, nd)
  | S fuel' =>
      let p := (10 ^ Z.of_nat (nd - k))%Z in
      let s0 := (v / p)%Z in
      let s1 := (s0 + 1)%Z in
      let ok0 := reads_back v s0 p in
      let ok1 := reads_back v s1 p && (s1 <? 10 ^ Z.of_nat k)%Z in
      match ok0, ok1 with
      | true, true =>
          match (v - s0 * p ?= s1 * p - v)%Z with
          | Lt => (s0, k)
          | Gt => (s1, k)
          | Eq => if Z.even s0 then (s0, k) else (s1, k)
          end
      | true, false => (s0, k)
      | false, true => (s1, k)
      | false, false => shortest fuel' (S k) nd v
      end
  end.

(** [Number.prototype.toString] on a whole double: all its digits below
    [2^53]; above, the shortest digits that read back, followed by zeros up
    to 21 places and in exponent notation beyond. *)
Definition numberToString (n : Z) : string :=
  if (Z.abs n <? 2 ^ 53)%Z then toString n
  else
    let v := Z.abs n in
    let nd := String.length (toString v) in
    let (s, k) := shortest nd 1 nd v in
    let ds := toString s in
    let body :=
      if (nd <=? 21)%nat then ds ++ cycle (nd - k) "0" "0"
      else
        substring 0 1 ds
        ++ (if (k =? 1)%nat then "" else "." ++ substring 1 (k - 1) ds)
        ++ "e+" ++ toString (Z.of_nat (nd - 1)) in
    (if (n <? 0)%Z then "-" else "") ++ body.

End Js.

(** ** EditorWindow.tsx *)
Module Editor.
Import Js.

Record TranscriptSegment := {
  id : string;
  text : string;
  start_time : number;
  end_time : number;
  speaker : string
}.

Record TranscriptionResult := {
  segments : list TranscriptSegment;
  full_text : string;
  duration : number
}.

Record SummaryResult := {
  summary : string;
  key_points : list string;
  action_items : list string
}.

(** The payload's [summary] field is [payload_summary] here. *)
Record EditorPayload := {
  recording_dir : string;
  transcript : TranscriptionResult;
  payload_summary : option SummaryResult
}.

(** [formatTime]. *)
Definition formatTime (seconds : number) : string :=
  let mins := Math_floor (fdiv seconds 60) in
  let secs := Math_floor (rem seconds 60%Q) in
  numberToString mins ++ ":" ++ padStart 2 "0" (numberToString secs).

(** The [useState] cells of the component.  [st_segments], [st_duration]
    and [st_summary] are the cells [segments], [duration] and [summary]. *)
Record EditorState := {
  recordingDir : string;
  st_segments : list TranscriptSegment;
  st_duration : number;
  st_summary : option SummaryResult;
  summarizing : bool;
  saving : bool;
  hasChanges : bool;
  status : string
}.

Definition initial : EditorState :=
  {| recordingDir := ""; st_segments := []; st_duration := 0%Q;
     st_summary := None; summarizing := false; saving := false;
     hasChanges := false; status := "Ready" |}.

(** One setter per cell. *)
Definition setRecordingDir (v : string) (s : EditorState) : EditorState :=
  {| recordingDir := v; st_segments := st_segments s;
     st_duration := st_duration s; st_summary := st_summary s;
     summarizing := summarizing s; saving := saving s;
     hasChanges := hasChanges s; status := status s |}.

Definition setSegments (f : list TranscriptSegment -> list TranscriptSegment)
  (s : EditorState) : EditorState :=
  {| recordingDir := recordingDir s; st_segments := f (st_segments s);
     st_duration := st_duration s; st_summary := st_summary s;
     summarizing := summarizing s; saving := saving s;
     hasChanges := hasChanges s; status := status s |}.

Definition setDuration (v : number) (s : EditorState) : EditorState :=
  {| recordingDir := recordingDir s; st_segments := st_segments s;
     st_duration := v; st_summary := st_summary s;
     summarizing := summarizing s; saving := saving s;
     hasChanges := hasChanges s; status := status s |}.

Definition setSummary (v : option SummaryResult) (s : EditorState)
  : EditorState :=
  {| recordingDir := recordingDir s; st_segments := st_segments s;
     st_duration := st_duration s; st_summary := v;
     summarizing := summarizing s; saving := saving s;
     hasChanges := hasChanges s; status := status s |}.

Definition setSummarizing (v : bool) (s : EditorState) : EditorState :=
  {| recordingDir := recordingDir s; st_segments := st_segments s;
     st_duration := st_duration s; st_summary := st_summary s;
     summarizing := v; saving := saving s;
     hasChanges := hasChanges s; status := status s |}.

Definition setSaving (v : bool) (s : EditorState) : EditorState :=
  {| recordingDir := recordingDir s; st_segments := st_segments s;
     st_duration := st_duration s; st_summary := st_summary s;
     summarizing := summarizing s; saving := v;
     hasChanges := hasChanges s; status := status s |}.

Definition setHasChanges (v : bool) (s : EditorState) : EditorState :=
  {| recordingDir := recordingDir s; st_segments := st_segments s;
     st_duration := st_duration s; st_summary := st_summary s;
     summarizing := summarizing s; saving := saving s;
     hasChanges := v; status := status s |}.

Definition setStatus (v : string) (s : EditorState) : EditorState :=
  {| recordingDir := recordingDir s; st_segments := st_segments s;
     st_duration := st_duration s; st_summary := st_summary s;
     summarizing := summarizing s; saving := saving s;
     hasChanges := hasChanges s; status := v |}.

(** The listener of the "editor-data" event. *)
Definition onEditorData (p : EditorPayload) (s : EditorState) : EditorState :=
  setStatus "Loaded"
    (setHasChanges false
       (setSummary (payload_summary p)
          (setDuration (duration (transcript p))
             (setSegments (fun _ => segments (transcript p))
                (setRecordingDir (recording_dir p) s))))).

(** [{ ...seg, text }] and [{ ...seg, speaker }]. *)
Definition with_text (seg : TranscriptSegment) (t : string) :=
  {| id := id seg; text := t; start_time := start_time seg;
     end_time := end_time seg; speaker := speaker seg |}.

Definition with_speaker (seg : TranscriptSegment) (sp : string) :=
  {| id := id seg; text := text seg; start_time := start_time seg;
     end_time := end_time seg; speaker := sp |}.

Definition handleTextChange (i t : string) (s : EditorState) : EditorState :=
  setHasChanges true
    (setSegments
       (fun prev =>
          map (fun seg => if id seg =? i then with_text seg t else seg) prev)
       s).

Definition handleSpeakerChange (i sp : string) (s : EditorState)
  : EditorState :=
  setHasChanges true
    (setSegments
       (fun prev =>
          map (fun seg => if id seg =? i then with_speaker seg sp else seg)
            prev)
       s).

Definition handleDelete (i : string) (s : EditorState) : EditorState :=
  setHasChanges true
    (setSegments
       (fun prev => filter (fun seg => negb (id seg =? i)) prev) s).

(** The template [`[${s.speaker}] ${s.text}`]. *)
Definition line (s : TranscriptSegment) : string :=
  "[" ++ speaker s ++ "] " ++ text s.

Definition buildTranscript (s : EditorState) : TranscriptionResult :=
  let fullText := join LF (map line (st_segments s)) in
  {| segments := st_segments s; full_text := fullText;
     duration := st_duration s |}.

(** *** The async handlers

    [invoke] reaches the back end, which either resolves or rejects with
    an error.  A handler runs on the current state and the log of
    commands invoked so far, and either completes or throws. *)
Inductive Command :=
| save_edited_transcript (dir : string) (t : TranscriptionResult)
| summarize_transcript (t : TranscriptionResult).

Record World := { ui : EditorState; invoked : list Command }.

Definition Eff (A : Type) : Type := World -> (string + A) * World.

Definition ret {A} (a : A) : Eff A := fun w => (inr a, w).

Definition bind {A B} (c : Eff A) (k : A -> Eff B) : Eff B :=
  fun w =>
    match c w with
    | (inl e, w') => (inl e, w')
    | (inr a, w') => k a w'
    end.

Definition get : Eff EditorState := fun w => (inr (ui w), w).

Definition set (f : EditorState -> EditorState) : Eff unit :=
  fun w => (inr tt, {| ui := f (ui w); invoked := invoked w |}).

Definition call {A} (c : Command) (reply : string + A) : Eff A :=
  fun w => (reply, {| ui := ui w; invoked := invoked w ++ [c] |}).

(** [try { body } catch (e) { handler } finally { fin }]. *)
Definition try_catch_finally {A} (body : Eff A) (handler : string -> Eff A)
  (fin : Eff unit) : Eff A :=
  fun w =>
    let (r, w1) := body w in
    let (r', w2) :=
      match r with
      | inl e => handler e w1
      | inr a => (inr a, w1)
      end in
    let (f, w3) := fin w2 in
    match f with
    | inl e => (inl e, w3)
    | inr _ => (r', w3)
    end.

Notation "x <- c ;; k" := (bind c (fun x => k))
  (at level 61, c at next level, right associativity).
Notation "c ;;; k" := (bind c (fun _ => k))
  (at level 61, right associativity).

Section Handlers.
(** The two commands of the back end the editor uses. *)
Variable save_backend : string -> TranscriptionResult -> string + unit.
Variable summarize_backend : TranscriptionResult -> string + SummaryResult.

Definition invoke_save (dir : string) (t : TranscriptionResult) : Eff unit :=
  call (save_edited_transcript dir t) (save_backend dir t).

Definition invoke_summarize (t : TranscriptionResult) : Eff SummaryResult :=
  call (summarize_transcript t) (summarize_backend t).

(** [handleSave]; [s] is the state the handler closed over. *)
Definition handleSave : Eff unit :=
  s <- get ;;
  if recordingDir s =? "" then ret tt
  else
    try_catch_finally
      (set (setSaving true) ;;;
       set (setStatus "Saving...") ;;;
       invoke_save (recordingDir s) (buildTranscript s) ;;;
       set (setHasChanges false) ;;;
       set (setStatus "Saved"))
      (fun e => set (setStatus ("Save error: " ++ e)))
      (set (setSaving false)).

(** [handleRegenerate]. *)
Definition handleRegenerate : Eff unit :=
  s <- get ;;
  try_catch_finally
    (set (setSummarizing true) ;;;
     set (setStatus "Regenerating summary...") ;;;
     result <- invoke_summarize (buildTranscript s) ;;
     set (setSummary (Some result)) ;;;
     set (setStatus "Summary updated"))
    (fun e => set (setStatus ("Summarization error: " ++ e)))
    (set (setSummarizing false)).

(** Running a handler from a state, with nothing invoked yet. *)
Definition run (h : Eff unit) (s : EditorState) : World :=
  snd (h {| ui := s; invoked := [] |}).

End Handlers.

(** The editor's mutations of the segment list, as one type. *)
Inductive Edit :=
| TextChange (i t : string)
| SpeakerChange (i sp : string)
| Delete (i : string).

Definition apply_edit (s : EditorState) (e : Edit) : EditorState :=
  match e with
  | TextChange i t => handleTextChange i t s
  | SpeakerChange i sp => handleSpeakerChange i sp s
  | Delete i => handleDelete i s
  end.

End Editor.

(** ** The derived fields and the ordering invariant, in the spec's words *)
Module Spec.
Import Js Editor.

(** Segments in non-decreasing order of start time. *)
Fixpoint sorted_by_start (l : list TranscriptSegment) : bool :=
  match l with
  | [] => true
  | x :: rest =>
      match rest with
      | [] => true
      | y :: _ =>
          Qle_bool (start_time x) (start_time y) && sorted_by_start rest
      end
  end.

(** Entries separated by a single newline; nothing for no entry. *)
Fixpoint newline_separated (l : list string) : string :=
  match l with
  | [] => ""
  | x :: rest =>
      match rest with
      | [] => x
      | _ :: _ => x ++ LF ++ newline_separated rest
      end
  end.

(** "[speaker] text" per segment, newline-separated, in list order. *)
Definition derived_full_text (l : list TranscriptSegment) : string :=
  newline_separated (map (fun s => "[" ++ speaker s ++ "] " ++ text s) l).

Definition le_start (x y : TranscriptSegment) : Prop :=
  (start_time x <= start_time y)%Q.

(** The max end time across all segments (0 for none). *)
Definition max_step (acc : number) (s : TranscriptSegment) : number :=
  Qmax acc (end_time s).

Definition max_end_time (l : list TranscriptSegment) : number :=
  match l with
  | [] => 0%Q
  | x :: rest => fold_left max_step rest (end_time x)
  end.

(** One decimal digit, and a value below 100 as two digits. *)
Definition digit (d : Z) : ascii := ascii_of_nat (48 + Z.to_nat d).

Definition two_digits (n : Z) : string :=
  String (digit (n / 10)) (String (digit (n mod 10)) EmptyString).

(** All segments of a list carry one speaker label. *)
Definition homogeneous (label : string) (l : list TranscriptSegment) : Prop :=
  Forall (fun s => speaker s = label) l.

(** The segments of a list that start at [t]. *)
Definition starting_at (t : number) (l : list TranscriptSegment)
  : list TranscriptSegment :=
  filter (fun s => Qeq_bool (start_time s) t) l.

End Spec.

(** ** The Segment Merge Engine *)
Module Merge.
Import Js Editor Spec.

(** Modelled from the spec: the Segment Merge Engine (the back end's
    transcribe module is not among the sources).  A two-way merge of two
    lists sorted by start time, linear, never reordering within a list; on
    an exact tie the segment of the first list goes first, which keeps the
    order the two inputs were given in. *)
Fixpoint merge (a : list TranscriptSegment)
  : list TranscriptSegment -> list TranscriptSegment :=
  match a with
  | [] => fun b => b
  | x :: a' =>
      fix merge_right (b : list TranscriptSegment) : list TranscriptSegment :=
        match b with
        | [] => a
        | y :: b' =>
            if Qle_bool (start_time x) (start_time y)
            then x :: merge a' b
            else y :: merge_right b'
        end
  end.

(** Modelled from the spec: the total duration of a merged transcript, the
    max end time across all segments, or the longer of the two source
    recordings if there are no segments. *)
Definition total_duration (segs : list TranscriptSegment)
  (a_recording b_recording : number) : number :=
  match segs with
  | [] => Qmax a_recording b_recording
  | _ :: _ => max_end_time segs
  end.

(** Modelled from the spec: the Merged Transcript built from the two
    segment lists and the lengths of the two source recordings. *)
Definition merge_transcripts (a b : list TranscriptSegment)
  (a_recording b_recording : number) : TranscriptionResult :=
  let merged := merge a b in
  {| segments := merged;
     full_text := derived_full_text merged;
     duration := total_duration merged a_recording b_recording |}.

End Merge.

(** ** App.tsx: the recorder window's polling of the recording stats *)
Module Recorder.
Import Js.

Record RecordingOutput := {
  directory : string;
  system_file : string;
  mic_file : string;
  mixed_file : string
}.

Record RecordingStats := {
  duration_secs : number;
  system_samples_written : number;
  mic_samples_written : number
}.

Record Milestone := { secs : number; label : string }.

Definition MILESTONES : list Milestone :=
  [ {| secs := 30 * 60; label := "30 minutes" |};
    {| secs := 60 * 60; label := "1 hour" |};
    {| secs := 2 * 60 * 60; label := "2 hours" |} ]%Q.

(** The cells the polling effect reads and writes. *)
Record PollState := {
  elapsedTime : number;
  warning : option string;
  milestonesReached : list number
}.

(** What a tick does besides updating the cells. *)
Inductive Effect :=
| ConsoleError (message error : string)
| RequestPermission
| SendNotification (title body : string)
| SetTimeout (ms : Z).

(** The notification plugin: the dynamic import and its two promises may
    each reject. *)
Record Plugin := {
  isPermissionGranted : string + bool;
  requestPermission : string + string
}.

(** [Set.prototype.has] and [new Set([...prev, x])]. *)
Definition has (s : list number) (x : number) : bool :=
  existsb (fun y => Qeq_bool y x) s.

Definition add (s : list number) (x : number) : list number :=
  if has s x then s else s ++ [x].

(** The inner [try] that sends the system notification. *)
Definition notify (import : string + Plugin) (lbl : string) : list Effect :=
  let failed e := [ConsoleError "Failed to send notification:" e] in
  let send :=
    [SendNotification "Meeting Recorder"
       ("Recording has been running for " ++ lbl)] in
  match import with
  | inl e => failed e
  | inr plugin =>
      match isPermissionGranted plugin with
      | inl e => failed e
      | inr true => send
      | inr false =>
          match requestPermission plugin with
          | inl e => RequestPermission :: failed e
          | inr permission =>
              RequestPermission ::
              (if permission =? "granted" then send else [])
          end
      end
  end.

(** One turn of the loop over [MILESTONES].  [captured] is the set the
    interval callback closed over; the cells are updated in [st]. *)
Definition check_milestone (import : string + Plugin) (stats : RecordingStats)
  (captured : list number) (acc : PollState * list Effect) (m : Milestone)
  : PollState * list Effect :=
  let (st, log) := acc in
  if Qle_bool (secs m) (duration_secs stats) && negb (has captured (secs m))
  then
    ({| elapsedTime := elapsedTime st;
        warning := Some ("Recording has been running for " ++ label m);
        milestonesReached := add (milestonesReached st) (secs m) |},
     (log ++ notify import (label m) ++ [SetTimeout 10000])%list)
  else acc.

(** The interval callback, given how [invoke("get_recording_stats")]
    settled: rejected with an error, or resolved with the stats or null. *)
Definition poll_tick (import : string + Plugin)
  (reply : string + option RecordingStats) (st : PollState)
  : PollState * list Effect :=
  match reply with
  | inl e => (st, [ConsoleError "Failed to get recording stats:" e])
  | inr None => (st, [])
  | inr (Some stats) =>
      fold_left (check_milestone import stats (milestonesReached st))
        MILESTONES
        ({| elapsedTime := duration_secs stats;
            warning := warning st;
            milestonesReached := milestonesReached st |}, [])
  end.

End Recorder.

(** ** The Capture Controller *)
Module Controller.
Import Js Recorder.

Inductive Source := Loopback | InputDevice.

Inductive Error :=
| AlreadyRecording
| NotRecording
| PermissionDenied (src : Source)
| DeviceUnavailable (src : Source)
| IoError (file : string).

Record Session := {
  session_directory : string;
  start_instant : number;
  system_samples : number;
  mic_samples : number
}.

(** Modelled from the spec: the lifecycle of the Capture Controller (the
    back end's audio module and command handlers are not among the
    sources).  A session exists in every state but [Idle]. *)
Inductive State :=
| Idle
| Recording (s : Session)
| Stopping (s : Session)
| Failed (e : Error).

(** The work a command carries out, in order. *)
Inductive Work :=
| CreateDirectory (dir : string)
| AcquireSource (src : Source)
| ReleaseSource (src : Source)
| StartPipelines
| DrainPipelines
| CloseWriter (file : string).

(** What the machine answers when a command runs. *)
Record Env := {
  now : number;
  new_directory : string;
  acquire : Source -> option Error;
  close : string -> bool
}.

Definition Outcome (A : Type) : Type := (Error + A) * State * list Work.

(** Modelled from the spec: [start_recording].  Rejected with "already
    recording" unless idle; otherwise the session directory is created and
    both sources are acquired, and a source that cannot be acquired aborts
    the session and rolls back to idle. *)
Definition start_recording (env : Env) (c : State) : Outcome unit :=
  match c with
  | Idle =>
      let dir := new_directory env in
      match acquire env Loopback with
      | Some e => (inl e, Idle, [CreateDirectory dir; AcquireSource Loopback])
      | None =>
          match acquire env InputDevice with
          | Some e =>
              (inl e, Idle,
               [CreateDirectory dir; AcquireSource Loopback;
                AcquireSource InputDevice; ReleaseSource Loopback])
          | None =>
              (inr tt,
               Recording {| session_directory := dir;
                            start_instant := now env;
                            system_samples := 0; mic_samples := 0 |},
               [CreateDirectory dir; AcquireSource Loopback;
                AcquireSource InputDevice; StartPipelines])
          end
      end
  | _ => (inl AlreadyRecording, c, [])
  end.

Definition output_of (s : Session) : RecordingOutput :=
  let dir := session_directory s in
  {| directory := dir;
     system_file := dir ++ "/system.wav";
     mic_file := dir ++ "/mic.wav";
     mixed_file := dir ++ "/mixed.wav" |}.

Definition files_of (s : Session) : list string :=
  let o := output_of s in [system_file o; mic_file o; mixed_file o].

(** Modelled from the spec: the second half of a stop, from [Stopping]:
    every writer is closed; a writer that cannot be flushed fails the
    session, which then returns to idle. *)
Definition finish_stop (env : Env) (s : Session)
  : Error + RecordingOutput :=
  match find (fun f => negb (close env f)) (files_of s) with
  | Some f => inl (IoError f)
  | None => inr (output_of s)
  end.

(** Modelled from the spec: [stop_recording].  Rejected unless recording;
    otherwise the pipelines drain, the writers close and the controller is
    idle again, through [Stopping] (and [Failed] on an error). *)
Definition stop_recording (env : Env) (c : State)
  : Outcome RecordingOutput :=
  match c with
  | Recording s =>
      (finish_stop env s, Idle,
       DrainPipelines :: map CloseWriter (files_of s))
  | _ => (inl NotRecording, c, [])
  end.

Definition is_idle (c : State) : bool :=
  match c with Idle => true | _ => false end.

Definition is_recording (c : State) : bool :=
  match c with Recording _ => true | _ => false end.

(** Modelled from the spec: [get_recording_stats], a snapshot of the live
    counters while recording and absent otherwise. *)
Definition get_recording_stats (env : Env) (c : State)
  : option RecordingStats :=
  match c with
  | Recording s =>
      Some {| duration_secs := now env - start_instant s;
              system_samples_written := system_samples s;
              mic_samples_written := mic_samples s |}
  | _ => None
  end.

End Controller.

(** ** A small recording, used to run the definitions *)
Module Samples.
Import Js Editor.

Definition seg_a : TranscriptSegment :=
  {| id := "a"; text := "hi"; start_time := 0; end_time := 5;
     speaker := "Me" |}.

Definition seg_b : TranscriptSegment :=
  {| id := "b"; text := "hey"; start_time := 5; end_time := 10;
     speaker := "Meeting" |}.

Definition loaded : TranscriptionResult :=
  {| segments := [seg_a; seg_b];
     full_text := "[Me] hi" ++ LF ++ "[Meeting] hey";
     duration := 10 |}.

Definition payload : EditorPayload :=
  {| recording_dir := "rec"; transcript := loaded;
     payload_summary := None |}.

(** The merge example of the spec: list A at 0s and 5s, list B at 2s. *)
Definition x0 : TranscriptSegment :=
  {| id := "x0"; text := "hi"; start_time := 0; end_time := 1;
     speaker := "X" |}.
Definition x5 : TranscriptSegment :=
  {| id := "x5"; text := "there"; start_time := 5; end_time := 6;
     speaker := "X" |}.
Definition y2 : TranscriptSegment :=
  {| id := "y2"; text := "hey"; start_time := 2; end_time := 3;
     speaker := "Y" |}.
(** A segment of the second source that ties with [x5]; its start time is
    the same number written differently. *)
Definition y5 : TranscriptSegment :=
  {| id := "y5"; text := "so"; start_time := 10 # 2; end_time := 7;
     speaker := "Y" |}.

Definition session : Controller.Session :=
  {| Controller.session_directory := "rec";
     Controller.start_instant := 100;
     Controller.system_samples := 48000;
     Controller.mic_samples := 48000 |}.

Definition env : Controller.Env :=
  {| Controller.now := 130;
     Controller.new_directory := "rec2";
     Controller.acquire := fun _ => None;
     Controller.close := fun _ => true |}.

End Samples.

From Stdlib Require DecimalFacts DecimalPos.

(** ** More JavaScript primitives: [toFixed] and [Set] *)
Module JsNumber.
Import Js.

(** A run of [n] zeros. *)
Fixpoint zeros (n : nat) : string :=
  match n with
  | O => ""
  | S n' => String "0" (zeros n')
  end.

(** The integer [n] for which [n / 10^f - x] is closest to zero, the larger
    one of two. *)
Definition nearest (f : nat) (x : number) : Z :=
  Qfloor (x * inject_Z (10 ^ Z.of_nat f) + (1 # 2))%Q.

(** [Number.prototype.toFixed(f)] below 1e21: the sign is split off, the
    digits of the nearest integer are padded with zeros to [f + 1] places, and
    the point goes before the last [f] of them. *)
Definition toFixed (f : nat) (x : number) : string :=
  let negative := negb (Qle_bool 0 x) in
  let x := if negative then (- x)%Q else x in
  let m := toString (nearest f x) in
  let m :=
    if (f =? 0)%nat then m
    else
      let k := String.length m in
      let m := if (k <=? f)%nat then zeros (f + 1 - k) ++ m else m in
      let k := String.length m in
      substring 0 (k - f) m ++ "." ++ substring (k - f) f m in
  (if negative then "-" else "") ++ m.

(** [new Set(array)] followed by a spread: the distinct strings in the order
    they first occur. *)
Definition set_add (acc : list string) (x : string) : list string :=
  if existsb (String.eqb x) acc then acc else (acc ++ [x])%list.

Definition unique (l : list string) : list string :=
  fold_left set_add l [].

End JsNumber.

(** ** App.tsx: the formatting helpers *)
Module Format.
Import Js JsNumber.

(** [formatBytes], on whole numbers of bytes (sizes and download counts),
    for which the divisions by powers of 1024 are exact in a double. *)
Definition formatBytes (bytes : Z) : string :=
  if (bytes <? 1024)%Z then toString bytes ++ " B"
  else if (bytes <? 1024 * 1024)%Z
  then toFixed 1 (inject_Z bytes / 1024)%Q ++ " KB"
  else if (bytes <? 1024 * 1024 * 1024)%Z
  then toFixed 1 (inject_Z bytes / (1024 * 1024))%Q ++ " MB"
  else toFixed 2 (inject_Z bytes / (1024 * 1024 * 1024))%Q ++ " GB".

(** [formatDuration]. *)
Definition formatDuration (seconds : number) : string :=
  let hours := Math_floor (fdiv seconds 3600) in
  let mins := Math_floor (fdiv (rem seconds 3600) 60) in
  let secs := Math_floor (rem seconds 60%Q) in
  if (0 <? hours)%Z
  then numberToString hours ++ ":" ++ padStart 2 "0" (numberToString mins)
       ++ ":" ++ padStart 2 "0" (numberToString secs)
  else numberToString mins ++ ":" ++ padStart 2 "0" (numberToString secs).

(** A count of tenths, and a count of hundredths, written with a decimal
    point. *)
Definition tenths (n : Z) : string :=
  toString (n / 10) ++ "." ++ String (Spec.digit (n mod 10)) "".

Definition hundredths (n : Z) : string :=
  toString (n / 100) ++ "." ++ Spec.two_digits (n mod 100).

End Format.

(** ** EditorWindow.tsx: what the component renders *)
Module EditorView.
Import Js JsNumber Editor.

(** [speakers]: the unique speakers of the segments. *)
Definition speakers (segs : list TranscriptSegment) : list string :=
  unique (map speaker segs).

(** One [SegmentRow]: its key, the options and the value of the speaker
    select, the time shown and the text of the textarea. *)
Record Row := {
  key : string;
  options : list string;
  selected : string;
  time : string;
  area : string
}.

(** The summary panel: the three sections when there is a summary (the two
    lists only when non-empty), or the invitation to generate one. *)
Inductive SummaryPanel :=
| SummaryContent (overview : string) (points : option (list string))
    (actions : option (list string))
| NoSummary (button : string) (button_disabled : bool).

Record Window := {
  header_duration : string;
  header_status : string;
  save_disabled : bool;
  save_label : string;
  rows : list Row;
  regenerate_disabled : bool;
  regenerate_label : string;
  panel : SummaryPanel
}.

(** Either the placeholder "No transcript loaded." or the editor. *)
Inductive View :=
| EditorEmpty
| EditorWindow (w : Window).

Definition non_empty (l : list string) : option (list string) :=
  match l with
  | [] => None
  | _ :: _ => Some l
  end.

Definition render_row (opts : list string) (seg : TranscriptSegment) : Row :=
  {| key := id seg; options := opts; selected := speaker seg;
     time := formatTime (start_time seg); area := text seg |}.

Definition render (s : EditorState) : View :=
  match st_segments s with
  | [] => EditorEmpty
  | _ :: _ =>
      EditorWindow
        {| header_duration := "(" ++ formatTime (st_duration s) ++ ")";
           header_status := status s;
           save_disabled := saving s || negb (hasChanges s);
           save_label :=
             if saving s then "Saving..."
             else if hasChanges s then "Save" else "Saved";
           rows := map (render_row (speakers (st_segments s))) (st_segments s);
           regenerate_disabled := summarizing s;
           regenerate_label :=
             if summarizing s then "Generating..." else "Regenerate";
           panel :=
             match st_summary s with
             | Some r =>
                 SummaryContent (summary r) (non_empty (key_points r))
                   (non_empty (action_items r))
             | None =>
                 NoSummary
                   (if summarizing s then "Generating..."
                    else "Generate Summary")
                   (summarizing s)
             end |}
  end.

End EditorView.

(** ** What an edited segment list owes to the list it came from *)
Module EditSpec.
Import Js Editor.

(** Same identifier and same timing. *)
Definition same_slot (seg' seg : TranscriptSegment) : Prop :=
  id seg' = id seg /\ start_time seg' = start_time seg
  /\ end_time seg' = end_time seg.

(** Every segment of [l'] stands in the slot of a segment of [l]. *)
Definition drawn_from (l l' : list TranscriptSegment) : Prop :=
  Forall (fun seg' => exists seg, In seg l /\ same_slot seg' seg) l'.

End EditSpec.

(** ** Async handlers over any state and any set of commands

    As in the editor: a handler runs on the cells and the list of commands
    sent to the back end so far, and either completes or throws. *)
Module Async.
Section Handler.
Variables Cells Command : Type.

Record World := { cells : Cells; sent : list Command }.

Definition Eff (A : Type) : Type := World -> (string + A) * World.

Definition ret {A} (a : A) : Eff A := fun w => (inr a, w).

Definition bind {A B} (c : Eff A) (k : A -> Eff B) : Eff B :=
  fun w =>
    match c w with
    | (inl e, w') => (inl e, w')
    | (inr a, w') => k a w'
    end.

Definition get : Eff Cells := fun w => (inr (cells w), w).

Definition set (f : Cells -> Cells) : Eff unit :=
  fun w => (inr tt, {| cells := f (cells w); sent := sent w |}).

(** [await invoke(c)], settled by the back end as [reply]. *)
Definition call {A} (c : Command) (reply : string + A) : Eff A :=
  fun w => (reply, {| cells := cells w; sent := (sent w ++ [c])%list |}).

(** [try { body } catch (e) { handler }]. *)
Definition try_catch {A} (body : Eff A) (handler : string -> Eff A) : Eff A :=
  fun w =>
    match body w with
    | (inl e, w') => handler e w'
    | (inr a, w') => (inr a, w')
    end.

(** [try { body } catch (e) { handler } finally { fin }]. *)
Definition try_catch_finally {A} (body : Eff A) (handler : string -> Eff A)
  (fin : Eff unit) : Eff A :=
  fun w =>
    let (r, w1) := try_catch body handler w in
    let (f, w2) := fin w1 in
    match f with
    | inl e => (inl e, w2)
    | inr _ => (r, w2)
    end.

Definition start (c : Cells) : World := {| cells := c; sent := [] |}.

End Handler.

Arguments cells {Cells Command} _.
Arguments sent {Cells Command} _.
Arguments ret {Cells Command A} _ _.
Arguments bind {Cells Command A B} _ _ _.
Arguments get {Cells Command} _.
Arguments set {Cells Command} _ _.
Arguments call {Cells Command A} _ _ _.
Arguments try_catch {Cells Command A} _ _ _.
Arguments try_catch_finally {Cells Command A} _ _ _ _.
Arguments start {Cells Command} _.

End Async.

(** ** App.tsx: the recorder window *)
Module RecorderUI.
Import Js Async.

Inductive Phase := PhaseIdle | PhaseMixing | PhaseTranscribing.

Record Progress := {
  phase : Phase;
  percent : number;
  progress_label : string
}.

Definition idle : Progress :=
  {| phase := PhaseIdle; percent := 0; progress_label := "" |}.

(** The [useState] cells of [RecorderUI]; [elapsedTime], [warning] and
    [milestonesReached] are the cells of the polling, kept together in
    [poll]. *)
Record Cells := {
  isRecording : bool;
  status : string;
  lastRecording : option Recorder.RecordingOutput;
  transcribing : bool;
  transcription : option Editor.TranscriptionResult;
  summarizing : bool;
  summary : option Editor.SummaryResult;
  poll : Recorder.PollState;
  processingProgress : Progress
}.

Definition initial : Cells :=
  {| isRecording := false; status := "Ready"; lastRecording := None;
     transcribing := false; transcription := None; summarizing := false;
     summary := None;
     poll := {| Recorder.elapsedTime := 0; Recorder.warning := None;
                Recorder.milestonesReached := [] |};
     processingProgress := idle |}.

Definition setIsRecording (v : bool) (s : Cells) : Cells :=
  {| isRecording := v; status := status s; lastRecording := lastRecording s;
     transcribing := transcribing s; transcription := transcription s;
     summarizing := summarizing s; summary := summary s; poll := poll s;
     processingProgress := processingProgress s |}.

Definition setStatus (v : string) (s : Cells) : Cells :=
  {| isRecording := isRecording s; status := v;
     lastRecording := lastRecording s;
     transcribing := transcribing s; transcription := transcription s;
     summarizing := summarizing s; summary := summary s; poll := poll s;
     processingProgress := processingProgress s |}.

Definition setLastRecording (v : option Recorder.RecordingOutput) (s : Cells)
  : Cells :=
  {| isRecording := isRecording s; status := status s; lastRecording := v;
     transcribing := transcribing s; transcription := transcription s;
     summarizing := summarizing s; summary := summary s; poll := poll s;
     processingProgress := processingProgress s |}.

Definition setTranscribing (v : bool) (s : Cells) : Cells :=
  {| isRecording := isRecording s; status := status s;
     lastRecording := lastRecording s;
     transcribing := v; transcription := transcription s;
     summarizing := summarizing s; summary := summary s; poll := poll s;
     processingProgress := processingProgress s |}.

Definition setTranscription (v : option Editor.TranscriptionResult)
  (s : Cells) : Cells :=
  {| isRecording := isRecording s; status := status s;
     lastRecording := lastRecording s;
     transcribing := transcribing s; transcription := v;
     summarizing := summarizing s; summary := summary s; poll := poll s;
     processingProgress := processingProgress s |}.

Definition setSummarizing (v : bool) (s : Cells) : Cells :=
  {| isRecording := isRecording s; status := status s;
     lastRecording := lastRecording s;
     transcribing := transcribing s; transcription := transcription s;
     summarizing := v; summary := summary s; poll := poll s;
     processingProgress := processingProgress s |}.

Definition setSummary (v : option Editor.SummaryResult) (s : Cells) : Cells :=
  {| isRecording := isRecording s; status := status s;
     lastRecording := lastRecording s;
     transcribing := transcribing s; transcription := transcription s;
     summarizing := summarizing s; summary := v; poll := poll s;
     processingProgress := processingProgress s |}.

Definition setPoll (v : Recorder.PollState) (s : Cells) : Cells :=
  {| isRecording := isRecording s; status := status s;
     lastRecording := lastRecording s;
     transcribing := transcribing s; transcription := transcription s;
     summarizing := summarizing s; summary := summary s; poll := v;
     processingProgress := processingProgress s |}.

Definition setProcessingProgress (v : Progress) (s : Cells) : Cells :=
  {| isRecording := isRecording s; status := status s;
     lastRecording := lastRecording s;
     transcribing := transcribing s; transcription := transcription s;
     summarizing := summarizing s; summary := summary s; poll := poll s;
     processingProgress := v |}.

(** The commands the recorder window sends. *)
Inductive Command :=
| start_recording
| stop_recording
| transcribe_recording (recordingDir : string)
| summarize_transcript (transcript : Editor.TranscriptionResult)
| open_editor (recordingDir : string) (transcript : Editor.TranscriptionResult)
    (summary : option Editor.SummaryResult).

(** How the back end settles each of them. *)
Record Backend := {
  on_start : string + unit;
  on_stop : string + Recorder.RecordingOutput;
  on_transcribe : string -> string + Editor.TranscriptionResult;
  on_summarize : Editor.TranscriptionResult -> string + Editor.SummaryResult;
  on_open_editor :
    string -> Editor.TranscriptionResult -> option Editor.SummaryResult ->
    string + unit
}.

Definition Handler : Type := Eff Cells Command unit.

Notation "x <- c ;; k" := (bind c (fun x => k))
  (at level 61, c at next level, right associativity).
Notation "c ;;; k" := (bind c (fun _ => k))
  (at level 61, right associativity).

Section Handlers.
Variable backend : Backend.

(** [startRecording]. *)
Definition startRecording : Handler :=
  try_catch
    (set (setStatus "Starting...") ;;;
     call start_recording (on_start backend) ;;;
     set (setIsRecording true) ;;;
     set (setStatus "Recording") ;;;
     set (setLastRecording None) ;;;
     set (setTranscription None) ;;;
     set (setSummary None))
    (fun e => set (setStatus ("Error: " ++ e))).

(** [stopRecording]. *)
Definition stopRecording : Handler :=
  try_catch
    (set (setStatus "Stopping...") ;;;
     output <- call stop_recording (on_stop backend) ;;
     set (setIsRecording false) ;;;
     set (setStatus "Saved") ;;;
     set (setLastRecording (Some output)) ;;;
     set (setProcessingProgress idle))
    (fun e =>
       set (setStatus ("Error: " ++ e)) ;;;
       set (setProcessingProgress idle)).

(** [transcribeRecording]. *)
Definition transcribeRecording : Handler :=
  s <- get ;;
  match lastRecording s with
  | None => ret tt
  | Some last =>
      try_catch_finally
        (set (setTranscribing true) ;;;
         set (setStatus "Transcribing...") ;;;
         result <- call (transcribe_recording (Recorder.directory last))
                     (on_transcribe backend (Recorder.directory last)) ;;
         set (setTranscription (Some result)) ;;;
         set (setSummary None) ;;;
         set (setStatus "Transcribed"))
        (fun e => set (setStatus ("Transcription error: " ++ e)))
        (set (setTranscribing false) ;;;
         set (setProcessingProgress idle))
  end.

(** [summarizeTranscript]. *)
Definition summarizeTranscript : Handler :=
  s <- get ;;
  match transcription s with
  | None => ret tt
  | Some t =>
      try_catch_finally
        (set (setSummarizing true) ;;;
         set (setStatus "Summarizing...") ;;;
         result <- call (summarize_transcript t) (on_summarize backend t) ;;
         set (setSummary (Some result)) ;;;
         set (setStatus "Summarized"))
        (fun e => set (setStatus ("Summarization error: " ++ e)))
        (set (setSummarizing false))
  end.

(** [openEditor]. *)
Definition openEditor : Handler :=
  s <- get ;;
  match lastRecording s, transcription s with
  | Some last, Some t =>
      try_catch
        (call (open_editor (Recorder.directory last) t (summary s))
           (on_open_editor backend (Recorder.directory last) t (summary s)))
        (fun e => set (setStatus ("Failed to open editor: " ++ e)))
  | _, _ => ret tt
  end.

End Handlers.

(** Running handlers one after the other, each to completion. *)
Definition after (h : Handler) (w : World Cells Command)
  : World Cells Command := snd (h w).

(** The effect that polls the stats, when [isRecording] is off: it resets
    the elapsed time and the milestones and sets no interval. *)
Definition statsEffect (s : Cells) : Cells :=
  if isRecording s then s
  else
    setPoll {| Recorder.elapsedTime := 0;
               Recorder.warning := Recorder.warning (poll s);
               Recorder.milestonesReached := [] |} s.

(** The listeners of the two progress events. *)
Definition onMixingProgress (event_percent : number) (s : Cells) : Cells :=
  setProcessingProgress
    {| phase := PhaseMixing; percent := event_percent;
       progress_label := "Mixing audio..." |} s.

Definition onTranscriptionProgress (event_phase : string)
  (overall_percent : number) (s : Cells) : Cells :=
  let label :=
    if event_phase =? "system" then "Transcribing meeting audio..."
    else "Transcribing your audio..." in
  setProcessingProgress
    {| phase := PhaseTranscribing; percent := overall_percent;
       progress_label := label |} s.

End RecorderUI.

(** ** App.tsx: the first-run setup wizard *)
Module SetupWizard.
Import Js Async.

Record ModelInfo := {
  id : string;
  name : string;
  size_bytes : Z;
  url : string;
  filename : string
}.

Record DownloadProgress := {
  model_id : string;
  downloaded : Z;
  total : Z;
  percent : number
}.

Inductive SetupStep := welcome | whisper | llm | complete.

Record Cells := {
  step : SetupStep;
  whisperModels : list ModelInfo;
  llmModels : list ModelInfo;
  selectedWhisper : string;
  selectedLlm : string;
  downloading : bool;
  progress : option DownloadProgress;
  error : option string
}.

Definition setStep (v : SetupStep) (s : Cells) : Cells :=
  {| step := v; whisperModels := whisperModels s; llmModels := llmModels s;
     selectedWhisper := selectedWhisper s; selectedLlm := selectedLlm s;
     downloading := downloading s; progress := progress s;
     error := error s |}.

Definition setSelectedWhisper (v : string) (s : Cells) : Cells :=
  {| step := step s; whisperModels := whisperModels s;
     llmModels := llmModels s;
     selectedWhisper := v; selectedLlm := selectedLlm s;
     downloading := downloading s; progress := progress s;
     error := error s |}.

Definition setSelectedLlm (v : string) (s : Cells) : Cells :=
  {| step := step s; whisperModels := whisperModels s;
     llmModels := llmModels s;
     selectedWhisper := selectedWhisper s; selectedLlm := v;
     downloading := downloading s; progress := progress s;
     error := error s |}.

Definition setDownloading (v : bool) (s : Cells) : Cells :=
  {| step := step s; whisperModels := whisperModels s;
     llmModels := llmModels s;
     selectedWhisper := selectedWhisper s; selectedLlm := selectedLlm s;
     downloading := v; progress := progress s; error := error s |}.

Definition setProgress (v : option DownloadProgress) (s : Cells) : Cells :=
  {| step := step s; whisperModels := whisperModels s;
     llmModels := llmModels s;
     selectedWhisper := selectedWhisper s; selectedLlm := selectedLlm s;
     downloading := downloading s; progress := v; error := error s |}.

Definition setError (v : option string) (s : Cells) : Cells :=
  {| step := step s; whisperModels := whisperModels s;
     llmModels := llmModels s;
     selectedWhisper := selectedWhisper s; selectedLlm := selectedLlm s;
     downloading := downloading s; progress := progress s; error := v |}.

Inductive Command :=
| download_whisper_model (modelId : string)
| download_llm_model (modelId : string)
| complete_setup.

Record Backend := {
  on_download_whisper : string -> string + unit;
  on_download_llm : string -> string + unit;
  on_complete_setup : string + unit
}.

Definition Handler : Type := Eff Cells Command unit.

Notation "c ;;; k" := (bind c (fun _ => k))
  (at level 61, right associativity).

Section Handlers.
Variable backend : Backend.

(** [downloadWhisper]. *)
Definition downloadWhisper : Handler :=
  bind get (fun s =>
  set (setDownloading true) ;;;
  set (setError None) ;;;
  set (setProgress None) ;;;
  try_catch_finally
    (call (download_whisper_model (selectedWhisper s))
       (on_download_whisper backend (selectedWhisper s)) ;;;
     set (setStep llm))
    (fun e => set (setError (Some e)))
    (set (setDownloading false) ;;;
     set (setProgress None))).

(** [downloadLlm]. *)
Definition downloadLlm : Handler :=
  bind get (fun s =>
  set (setDownloading true) ;;;
  set (setError None) ;;;
  set (setProgress None) ;;;
  try_catch_finally
    (call (download_llm_model (selectedLlm s))
       (on_download_llm backend (selectedLlm s)) ;;;
     call complete_setup (on_complete_setup backend) ;;;
     set (setStep complete))
    (fun e => set (setError (Some e)))
    (set (setDownloading false) ;;;
     set (setProgress None))).

End Handlers.

(** The two effects that select the first model once the lists arrive. *)
Definition selectFirstWhisper (s : Cells) : Cells :=
  match whisperModels s with
  | first :: _ =>
      if selectedWhisper s =? "" then setSelectedWhisper (id first) s else s
  | [] => s
  end.

Definition selectFirstLlm (s : Cells) : Cells :=
  match llmModels s with
  | first :: _ =>
      if selectedLlm s =? "" then setSelectedLlm (id first) s else s
  | [] => s
  end.

(** [models.find((m) => m.id === selected)]. *)
Definition selectedModel (models : list ModelInfo) (selected : string)
  : option ModelInfo :=
  find (fun m => id m =? selected) models.

(** [model?.size_bytes || 0]. *)
Definition size_or_zero (m : option ModelInfo) : Z :=
  match m with
  | Some m => size_bytes m
  | None => 0
  end.

(** The size announced on the welcome step. *)
Definition welcomeSize (s : Cells) : string :=
  Format.formatBytes
    (size_or_zero (selectedModel (whisperModels s) (selectedWhisper s))
     + size_or_zero (selectedModel (llmModels s) (selectedLlm s))).

End SetupWizard.

(** ** Sample states of the two windows of the main view *)
Module UISamples.

Definition output : Recorder.RecordingOutput :=
  {| Recorder.directory := "rec"; Recorder.system_file := "rec/system.wav";
     Recorder.mic_file := "rec/mic.wav";
     Recorder.mixed_file := "rec/mixed.wav" |}.

(** A back end on which everything resolves. *)
Definition willing : RecorderUI.Backend :=
  {| RecorderUI.on_start := inr tt;
     RecorderUI.on_stop := inr output;
     RecorderUI.on_transcribe := fun _ => inr Samples.loaded;
     RecorderUI.on_summarize :=
       fun _ => inr {| Editor.summary := "s"; Editor.key_points := [];
                       Editor.action_items := [] |};
     RecorderUI.on_open_editor := fun _ _ _ => inr tt |}.

(** A back end on which everything is rejected. *)
Definition failing : RecorderUI.Backend :=
  {| RecorderUI.on_start := inl "busy";
     RecorderUI.on_stop := inl "io";
     RecorderUI.on_transcribe := fun _ => inl "no model";
     RecorderUI.on_summarize := fun _ => inl "no model";
     RecorderUI.on_open_editor := fun _ _ _ => inl "no window" |}.

Definition tiny : SetupWizard.ModelInfo :=
  {| SetupWizard.id := "tiny"; SetupWizard.name := "Tiny";
     SetupWizard.size_bytes := 1536; SetupWizard.url := "u1";
     SetupWizard.filename := "tiny.bin" |}.

Definition small : SetupWizard.ModelInfo :=
  {| SetupWizard.id := "small"; SetupWizard.name := "Small";
     SetupWizard.size_bytes := 512; SetupWizard.url := "u2";
     SetupWizard.filename := "small.gguf" |}.

Definition wizard : SetupWizard.Cells :=
  {| SetupWizard.step := SetupWizard.llm;
     SetupWizard.whisperModels := [tiny];
     SetupWizard.llmModels := [small];
     SetupWizard.selectedWhisper := "";
     SetupWizard.selectedLlm := "";
     SetupWizard.downloading := false;
     SetupWizard.progress := None;
     SetupWizard.error := Some "earlier failure" |}.

End UISamples.

(** * Properties *)

(** ** Strings *)
Section StringFacts.

Lemma string_app_assoc (a b c : string) : (a ++ b) ++ c = a ++ (b ++ c).
Proof.
  induction a as [|ch a IH]; simpl; [reflexivity|].
  now rewrite IH.
Qed.

Lemma string_app_nil_r (a : string) : a ++ "" = a.
Proof.
  induction a as [|ch a IH]; simpl; [reflexivity|].
  now rewrite IH.
Qed.

End StringFacts.

(** ** [Array.prototype.join] against the newline-separated text *)
Section JoinFacts.
Import Js Editor Spec.

Variable sep : string.

Lemma join_loop_started (l : list string) (k : nat) (R : string) :
  snd (fold_left (join_step sep) l (S k, R)) = R ++ prefixed sep l.
Proof.
  revert k R.
  induction l as [|x l IH]; intros k R; simpl.
  - now rewrite string_app_nil_r.
  - rewrite IH. now rewrite !string_app_assoc.
Qed.

Lemma join_cons (x : string) (l : list string) :
  join sep (x :: l) = x ++ prefixed sep l.
Proof.
  unfold join. simpl. apply join_loop_started.
Qed.

Lemma join_cons_cons (x y : string) (l : list string) :
  join sep (x :: y :: l) = x ++ sep ++ join sep (y :: l).
Proof.
  rewrite !join_cons. reflexivity.
Qed.

End JoinFacts.

Section FullText.
Import Js Editor Spec.

Lemma join_newline_separated (l : list string) :
  join LF l = newline_separated l.
Proof.
  induction l as [|x [|y l] IH].
  - reflexivity.
  - reflexivity.
  - rewrite join_cons_cons, IH. reflexivity.
Qed.

Lemma buildTranscript_full_text (s : EditorState) :
  full_text (buildTranscript s) = derived_full_text (st_segments s).
Proof.
  unfold buildTranscript, derived_full_text. simpl.
  apply join_newline_separated.
Qed.

End FullText.

(** ** Doubles: rounding, quotients and remainders *)
Section Doubles.
Import Js.
Local Open Scope Q_scope.

Lemma pow2_pos (c : Z) : 0 < pow2 c.
Proof. apply Qpower_0_lt. reflexivity. Qed.

Lemma pow2_add (a b : Z) : pow2 (a + b) == pow2 a * pow2 b.
Proof. apply Qpower_plus. discriminate. Qed.

Lemma pow2_le (a b : Z) : (a <= b)%Z -> pow2 a <= pow2 b.
Proof. intros H. apply Qpower_le_compat_l; [exact H | discriminate]. Qed.

Lemma pow2_lt_inv (a b : Z) : pow2 a < pow2 b -> (a < b)%Z.
Proof.
  intros H. destruct (Z_lt_le_dec a b) as [L | L]; [exact L|].
  apply pow2_le in L. lra.
Qed.

Lemma pow2_Z (c : Z) : (0 <= c)%Z -> pow2 c == inject_Z (2 ^ c).
Proof. intros H. unfold pow2. now rewrite Zpower_Qpower. Qed.

Lemma pow2_opp (c : Z) : pow2 c * pow2 (- c) == 1.
Proof.
  rewrite <- pow2_add. replace (c + - c)%Z with 0%Z by lia. reflexivity.
Qed.

Lemma Qfloor_unique (x : Q) (n : Z) :
  inject_Z n <= x -> x < inject_Z (n + 1) -> Qfloor x = n.
Proof.
  intros L U.
  pose proof (Qfloor_le x) as A. pose proof (Qlt_floor x) as B.
  assert (n < Qfloor x + 1)%Z by (rewrite Zlt_Qlt; lra).
  assert (Qfloor x < n + 1)%Z by (rewrite Zlt_Qlt; lra).
  lia.
Qed.

Lemma round_half_even_bounds (y : Q) :
  (Qfloor y <= round_half_even y <= Qfloor y + 1)%Z
  /\ (round_half_even y = (Qfloor y + 1)%Z -> inject_Z (Qfloor y) + (1 # 2) <= y).
Proof.
  unfold round_half_even.
  destruct (y - inject_Z (Qfloor y) ?= 1 # 2) eqn:C.
  - apply Qeq_alt in C. destruct (Z.even (Qfloor y)); split; try lia;
      intros _; lra.
  - split; [lia|]. intros E. lia.
  - apply Qgt_alt in C. split; [lia|]. intros _. lra.
Qed.

Lemma round_half_even_ge (y : Q) (N : Z) :
  inject_Z N <= y -> (N <= round_half_even y)%Z.
Proof.
  intros H. destruct (round_half_even_bounds y) as [[L _] _].
  apply Qfloor_resp_le in H. rewrite Qfloor_Z in H. lia.
Qed.

Lemma round_half_even_lt (y : Q) (N : Z) :
  y < inject_Z N - (1 # 2) -> (round_half_even y < N)%Z.
Proof.
  intros H. destruct (round_half_even_bounds y) as [[_ U] E].
  pose proof (Qfloor_le y) as F.
  assert (A : (Qfloor y < N)%Z) by (rewrite Zlt_Qlt; lra).
  destruct (Z.eq_dec (round_half_even y) (Qfloor y + 1)) as [R | R]; [|lia].
  specialize (E R). rewrite R. rewrite Zlt_Qlt, inject_Z_plus.
  change (inject_Z 1) with 1. lra.
Qed.

Lemma round_half_even_Z (n : Z) : round_half_even (inject_Z n) = n.
Proof.
  unfold round_half_even. rewrite Qfloor_Z.
  replace (inject_Z n - inject_Z n ?= 1 # 2) with Lt; [reflexivity|].
  symmetry. apply (proj1 (Qlt_alt _ _)). lra.
Qed.

Lemma pow2_succ (c : Z) : pow2 (c + 1) == 2 * pow2 c.
Proof. rewrite pow2_add. change (pow2 1) with 2. lra. Qed.

Lemma Z_log2_Q (a : Z) :
  (0 < a)%Z ->
  pow2 (Z.log2 a) <= inject_Z a /\ inject_Z a < 2 * pow2 (Z.log2 a).
Proof.
  intros H. destruct (Z.log2_spec a H) as [L U].
  pose proof (Z.log2_nonneg a) as N.
  rewrite <- pow2_succ, !pow2_Z by lia.
  rewrite <- Zle_Qle, <- Zlt_Qlt. split; [exact L | exact U].
Qed.

Lemma ilog2_spec (x : Q) :
  0 < x -> pow2 (ilog2 x) <= x /\ x < pow2 (ilog2 x + 1).
Proof.
  intros H. unfold ilog2.
  destruct x as [p d].
  assert (P : (0 < p)%Z) by (unfold Qlt in H; simpl in H; lia).
  destruct (Z_log2_Q p P) as [Lp Up].
  destruct (Z_log2_Q (Zpos d) eq_refl) as [Ld Ud].
  cbn [Qnum Qden].
  set (lp := Z.log2 p) in *. set (ld := Z.log2 (Zpos d)) in *.
  assert (X : (p # d) * inject_Z (Zpos d) == inject_Z p).
  { unfold Qeq, Qmult, inject_Z. simpl. lia. }
  assert (E : pow2 lp == pow2 (lp - ld) * pow2 ld).
  { rewrite <- pow2_add. now replace (lp - ld + ld)%Z with lp by lia. }
  pose proof (pow2_pos (lp - ld)) as Pe. pose proof (pow2_pos ld) as Pl.
  assert (Dp : 0 < inject_Z (Zpos d)) by reflexivity.
  destruct (Qle_bool (pow2 (lp - ld)) (p # d)) eqn:C.
  - apply Qle_bool_iff in C. split; [exact C|].
    rewrite pow2_succ. nra.
  - assert (C' : p # d < pow2 (lp - ld)).
    { apply Qnot_le_lt. intros A. apply Qle_bool_iff in A. congruence. }
    replace (lp - ld - 1 + 1)%Z with (lp - ld)%Z by lia.
    split; [|exact C'].
    assert (S : pow2 (lp - ld) == 2 * pow2 (lp - ld - 1)).
    { rewrite <- pow2_succ. now replace (lp - ld - 1 + 1)%Z with (lp - ld)%Z by lia. }
    pose proof (pow2_pos (lp - ld - 1)). nra.
Qed.

Lemma round_double_pos (x : Q) :
  0 < x ->
  round_double x
  = inject_Z (round_half_even (x / pow2 (quantum x))) * pow2 (quantum x).
Proof.
  intros H. unfold round_double.
  assert (N : Qeq_bool x 0 = false).
  { destruct (Qeq_bool x 0) eqn:E; [|reflexivity].
    apply Qeq_bool_eq in E. lra. }
  assert (P : Qle_bool 0 x = true) by (apply Qle_bool_iff; lra).
  rewrite N, P.
  replace (Qabs x) with x; [reflexivity|].
  destruct x as [p d]. unfold Qlt in H. simpl in H. simpl.
  now rewrite Z.abs_eq by lia.
Qed.

(** A positive double is a whole number of its quanta. *)
Lemma double_quanta (s : Q) :
  is_double s = true -> 0 < s ->
  exists n, s == inject_Z n * pow2 (quantum s).
Proof.
  intros I H. unfold is_double in I. apply Qeq_bool_eq in I.
  rewrite (round_double_pos s H) in I.
  eexists. symmetry. exact I.
Qed.

Lemma ilog2_below (x : Q) (b : Z) : 0 < x -> x < pow2 b -> (ilog2 x < b)%Z.
Proof.
  intros H U. destruct (ilog2_spec x H) as [L _].
  apply pow2_lt_inv. lra.
Qed.

(** Below [2^53], the floor of a double quotient by a whole number is the
    floor of the exact quotient. *)
Lemma floor_fdiv (s : Q) (D : positive) :
  is_double s = true -> 0 <= s -> s < pow2 53 ->
  Qfloor (fdiv s (inject_Z (Zpos D))) = Qfloor (s / inject_Z (Zpos D)).
Proof.
  intros I N B. unfold fdiv.
  set (Dq := inject_Z (Zpos D)).
  assert (Dpos : 1 <= Dq).
  { unfold Dq. change 1 with (inject_Z 1). rewrite <- Zle_Qle. lia. }
  destruct (Qeq_dec s 0) as [Z | NZ].
  { assert (E : s / Dq == 0) by (rewrite Z; reflexivity).
    unfold round_double. rewrite (Qeq_eq_bool _ _ E).
    now rewrite (Qfloor_comp _ _ E). }
  assert (S : 0 < s) by lra.
  set (x := s / Dq).
  assert (XD : x * Dq == s).
  { unfold x. rewrite Qmult_comm. apply Qmult_div_r. lra. }
  assert (X : 0 < x) by nra.
  assert (XS : x <= s) by nra.
  rewrite (round_double_pos x X).
  set (F := Qfloor x).
  pose proof (Qfloor_le x) as FL. pose proof (Qlt_floor x) as FU.
  fold F in FL, FU. rewrite inject_Z_plus in FU.
  change (inject_Z 1) with 1 in FU.
  assert (F0 : 0 <= inject_Z F).
  { change 0 with (inject_Z 0). rewrite <- Zle_Qle.
    apply (Qfloor_resp_le 0 x). lra. }
  destruct (ilog2_spec x X) as [EL EU].
  set (e := ilog2 x) in *.
  assert (E53 : (e < 53)%Z) by (apply ilog2_below; lra).
  unfold quantum. fold e.
  set (c := (Z.max e (-1022) - 52)%Z).
  assert (C0 : (c <= 0)%Z) by lia.
  pose proof (pow2_opp c) as CT. pose proof (pow2_pos c) as Pc.
  pose proof (pow2_pos (- c)) as Pt.
  pose proof (pow2_Z (- c) ltac:(lia)) as TZ.
  set (T := pow2 (- c)) in *. set (Cq := pow2 c) in *.
  assert (Y : x / Cq == x * T).
  { apply Qmult_inj_r with Cq; [lra|].
    rewrite Qmult_comm, Qmult_div_r by lra.
    rewrite <- Qmult_assoc, (Qmult_comm T Cq), CT. ring. }
  set (n := round_half_even (x / Cq)).
  (* the quotient stays half a quantum away from the next whole number *)
  assert (G : (1 # 2) < (inject_Z F + 1 - x) * T).
  { destruct (Z_lt_le_dec e (-1022)) as [Sub | Nor].
    - assert (x < 1 # 2).
      { eapply Qlt_le_trans; [exact EU|].
        change (1 # 2) with (pow2 (-1)). apply pow2_le. lia. }
      assert (2 <= T).
      { change 2 with (pow2 1). apply pow2_le. lia. }
      nra.
    - destruct (double_quanta s I S) as (ns & NS).
      destruct (ilog2_spec s S) as [SL SU].
      set (es := ilog2 s) in *.
      assert (ES53 : (es < 53)%Z) by (apply ilog2_below; lra).
      unfold quantum in NS. fold es in NS.
      set (cs := (Z.max es (-1022) - 52)%Z) in *.
      pose proof (pow2_Z (- cs) ltac:(lia)) as SZ.
      pose proof (pow2_opp cs) as SO. pose proof (pow2_pos cs) as Pcs.
      pose proof (pow2_pos (- cs)) as Pcs'.
      (* the gap to the next multiple of D is a whole number of quanta *)
      set (k := (Zpos D * (F + 1) * 2 ^ (- cs) - ns)%Z).
      assert (K : (inject_Z F + 1 - x) * Dq == inject_Z k * pow2 cs).
      { unfold k, Z.sub.
        rewrite inject_Z_plus, inject_Z_opp, !inject_Z_mult, inject_Z_plus.
        rewrite <- SZ. fold Dq. change (inject_Z 1) with 1.
        transitivity (Dq * (inject_Z F + 1) - s); [nra|].
        rewrite NS. set (a := pow2 cs) in *. set (b := pow2 (- cs)) in *.
        transitivity (Dq * (inject_Z F + 1) * (a * b) - inject_Z ns * a);
          [rewrite SO; ring | ring]. }
      assert (K1 : (1 <= k)%Z).
      { assert (0 < inject_Z k) by nra.
        assert (0 < k)%Z by (rewrite Zlt_Qlt; exact H). lia. }
      assert (K1q : 1 <= inject_Z k).
      { change 1 with (inject_Z 1). now rewrite <- Zle_Qle. }
      assert (CS : pow2 (es - 52) <= pow2 cs) by (apply pow2_le; lia).
      assert (A : pow2 (es - 52) * T == pow2 (es - e)).
      { unfold T. rewrite <- pow2_add. unfold c.
        now replace (es - 52 + - (Z.max e (-1022) - 52))%Z
          with (es - e)%Z by lia. }
      assert (A2 : pow2 (es + 1) == 2 * (pow2 (es - e) * pow2 e)).
      { rewrite <- pow2_add, <- pow2_succ.
        now replace (es - e + e + 1)%Z with (es + 1)%Z by lia. }
      pose proof (pow2_pos (es - 52)) as P1.
      pose proof (pow2_pos (es - e)) as P2.
      pose proof (pow2_pos e) as P3.
      set (g := inject_Z F + 1 - x) in *.
      set (a := pow2 (es - e)) in *. set (pe := pow2 e) in *.
      set (q := pow2 (es - 52)) in *. set (qs := pow2 cs) in *.
      assert (D2 : Dq < 2 * a) by nra.
      assert (GQ : q <= g * Dq) by nra.
      assert (GT : a <= g * Dq * T) by nra.
      nra. }
  apply Qfloor_unique.
  - assert (L : (F * 2 ^ (- c) <= n)%Z).
    { apply round_half_even_ge. rewrite Y, inject_Z_mult, <- TZ. nra. }
    rewrite Zle_Qle, inject_Z_mult, <- TZ in L. fold T in L.
    nra.
  - assert (U : (n < (F + 1) * 2 ^ (- c))%Z).
    { apply round_half_even_lt.
      rewrite Y, inject_Z_mult, inject_Z_plus, <- TZ.
      change (inject_Z 1) with 1. fold T. nra. }
    assert (U' : (n + 1 <= (F + 1) * 2 ^ (- c))%Z) by lia.
    rewrite Zle_Qle, inject_Z_mult, !inject_Z_plus, <- TZ in U'.
    change (inject_Z 1) with 1 in U'. fold T in U'.
    rewrite inject_Z_plus. change (inject_Z 1) with 1.
    nra.
Qed.

Lemma round_half_even_comp (x y : Q) :
  x == y -> round_half_even x = round_half_even y.
Proof.
  intros E. unfold round_half_even.
  rewrite (Qfloor_comp _ _ E).
  replace (x - inject_Z (Qfloor y) ?= 1 # 2)
    with (y - inject_Z (Qfloor y) ?= 1 # 2); [reflexivity|].
  apply Qcompare_comp; [now rewrite E | reflexivity].
Qed.

Lemma is_double_zero (r : Q) : r == 0 -> is_double r = true.
Proof.
  intros E. unfold is_double, round_double.
  rewrite (Qeq_eq_bool _ _ E). apply Qeq_eq_bool. now rewrite E.
Qed.

(** A positive whole number of quanta of a double, no larger than that
    double, is a double. *)
Lemma multiple_is_double (r s : Q) (k : Z) :
  0 < r -> r <= s -> r == inject_Z k * pow2 (quantum s) ->
  is_double r = true.
Proof.
  intros R RS K.
  assert (S : 0 < s) by lra.
  destruct (ilog2_spec r R) as [RL _]. destruct (ilog2_spec s S) as [_ SU].
  assert (E : (ilog2 r < ilog2 s + 1)%Z) by (apply pow2_lt_inv; lra).
  unfold is_double. apply Qeq_eq_bool.
  rewrite (round_double_pos r R).
  set (cr := quantum r). set (cs := quantum s) in *.
  assert (C : (cr <= cs)%Z) by (unfold cr, cs, quantum; lia).
  pose proof (pow2_pos cr) as Pr.
  assert (A : pow2 cs == pow2 cr * inject_Z (2 ^ (cs - cr))).
  { rewrite <- pow2_Z by lia. rewrite <- pow2_add.
    now replace (cr + (cs - cr))%Z with cs by lia. }
  assert (Y : r / pow2 cr == inject_Z (k * 2 ^ (cs - cr))).
  { rewrite inject_Z_mult.
    apply Qmult_inj_r with (pow2 cr); [lra|].
    rewrite Qmult_comm, Qmult_div_r by lra.
    rewrite K, A. ring. }
  rewrite (round_half_even_comp _ _ Y), round_half_even_Z.
  rewrite K, A, inject_Z_mult. ring.
Qed.

Lemma trunc_floor (x : Q) : 0 <= x -> trunc x = Qfloor x.
Proof.
  intros H. unfold trunc. apply Qle_bool_iff in H. now rewrite H.
Qed.

(** The remainder of a double below [2^53] by a whole number is a double
    between zero and the dividend. *)
Lemma rem_is_double (s : Q) (D : positive) :
  is_double s = true -> 0 <= s -> s < pow2 53 ->
  is_double (rem s (inject_Z (Zpos D))) = true
  /\ 0 <= rem s (inject_Z (Zpos D)) <= s.
Proof.
  intros I N B. unfold rem.
  set (Dq := inject_Z (Zpos D)).
  assert (Dpos : 1 <= Dq).
  { unfold Dq. change 1 with (inject_Z 1). rewrite <- Zle_Qle. lia. }
  assert (X : 0 <= s / Dq).
  { unfold Qdiv. apply Qmult_le_0_compat; [exact N|].
    apply Qinv_le_0_compat. lra. }
  rewrite (trunc_floor _ X).
  set (q := Qfloor (s / Dq)).
  assert (Q0 : 0 <= inject_Z q).
  { change 0 with (inject_Z 0). rewrite <- Zle_Qle.
    apply (Qfloor_resp_le 0 (s / Dq)). exact X. }
  assert (QL : Dq * inject_Z q <= s).
  { pose proof (Qfloor_le (s / Dq)) as L. fold q in L.
    assert (XD : s / Dq * Dq == s)
      by (rewrite Qmult_comm; apply Qmult_div_r; lra).
    nra. }
  assert (R : 0 <= s - Dq * inject_Z q <= s) by nra.
  split; [|exact R].
  destruct (Qeq_dec (s - Dq * inject_Z q) 0) as [Z | NZ];
    [now apply is_double_zero|].
  assert (S : 0 < s) by lra.
  destruct (double_quanta s I S) as (ns & NS).
  assert (ES : (ilog2 s < 53)%Z) by (apply ilog2_below; lra).
  assert (CS : (quantum s <= 0)%Z) by (unfold quantum; lia).
  pose proof (pow2_Z (- quantum s) ltac:(lia)) as SZ.
  pose proof (pow2_opp (quantum s)) as SO.
  apply (multiple_is_double _ s (ns - Zpos D * q * 2 ^ (- quantum s)));
    [lra | lra |].
  unfold Z.sub.
  rewrite inject_Z_plus, inject_Z_opp, !inject_Z_mult, <- SZ. fold Dq.
  rewrite NS at 1.
  set (a := pow2 (quantum s)) in *. set (b := pow2 (- quantum s)) in *.
  transitivity (inject_Z ns * a - Dq * inject_Z q * (a * b));
    [rewrite SO; ring | ring].
Qed.

End Doubles.

(** ** [formatTime] *)
Section FormatTime.
Import Js Editor Spec.
Local Open Scope Q_scope.

Lemma Qfloor_add_Z (x : Q) (k : Z) :
  Qfloor (x + inject_Z k) = (Qfloor x + k)%Z.
Proof.
  destruct x as [p q]. unfold Qfloor, Qplus, inject_Z. simpl.
  rewrite Pos.mul_1_r, Z.mul_1_r.
  apply Z.div_add. discriminate.
Qed.

Lemma Qfloor_div_60 (x : Q) : Qfloor (x / 60) = (Qfloor x / 60)%Z.
Proof.
  destruct x as [p q]. unfold Qfloor, Qdiv, Qmult, Qinv. simpl.
  rewrite Z.mul_1_r, Pos2Z.inj_mul.
  symmetry. apply Z.div_div; lia.
Qed.

Lemma trunc_nonneg (x : Q) : 0 <= x -> trunc x = Qfloor x.
Proof.
  intros H. unfold trunc.
  apply Qle_bool_iff in H. now rewrite H.
Qed.

Lemma div_60_nonneg (s : Q) : 0 <= s -> 0 <= s / 60.
Proof.
  intros H. unfold Qdiv.
  apply Qmult_le_0_compat; [exact H | discriminate].
Qed.

(** The seconds shown: flooring the remainder is the remainder of the
    floor. *)
Lemma floor_rem_60 (s : Q) :
  0 <= s -> Math_floor (rem s 60) = (Qfloor s mod 60)%Z.
Proof.
  intros H. unfold Math_floor, rem.
  rewrite (trunc_nonneg _ (div_60_nonneg s H)), Qfloor_div_60.
  set (q := (Qfloor s / 60)%Z).
  assert (E : s - 60 * inject_Z q == s + inject_Z (- (60 * q))).
  { rewrite inject_Z_opp, inject_Z_mult. unfold Qminus. reflexivity. }
  rewrite (Qfloor_comp _ _ E), Qfloor_add_Z.
  unfold q. rewrite Z.mod_eq by discriminate. lia.
Qed.

Lemma floor_nonneg (s : Q) : 0 <= s -> (0 <= Qfloor s)%Z.
Proof.
  intros H. change 0%Z with (Qfloor 0). now apply Qfloor_resp_le.
Qed.

(** Padding the decimal form of a value below 100 to two places gives its
    two digits. *)
Lemma padStart_two_digits (n : Z) :
  (0 <= n < 100)%Z -> padStart 2 "0" (toString n) = two_digits n.
Proof.
  intros H.
  assert (I : In n (map Z.of_nat (seq 0 100))).
  { apply in_map_iff. exists (Z.to_nat n). split; [lia|].
    apply in_seq. lia. }
  cbv [seq map] in I. simpl Z.of_nat in I.
  repeat (destruct I as [<- | I]; [vm_compute; reflexivity|]).
  contradiction.
Qed.

(** Below [2^53] a whole number is printed with all its digits. *)
Lemma numberToString_small (n : Z) :
  (Z.abs n < 2 ^ 53)%Z -> numberToString n = toString n.
Proof.
  intros H. unfold numberToString.
  destruct (Z.ltb_spec (Z.abs n) (2 ^ 53)); [reflexivity | lia].
Qed.

Lemma floor_below (s : Q) (b : Z) :
  0 <= s -> s < inject_Z b -> (0 <= Qfloor s < b)%Z.
Proof.
  intros H B. split; [now apply floor_nonneg|].
  pose proof (Qfloor_le s). rewrite Zlt_Qlt. lra.
Qed.

Lemma formatTime_nonneg (s : Q) :
  is_double s = true -> 0 <= s -> s < inject_Z (2 ^ 53) ->
  formatTime s =
    (toString (Qfloor (s / 60)) ++ ":" ++ two_digits (Qfloor s mod 60))%string.
Proof.
  intros I H B. unfold formatTime, Math_floor.
  pose proof (floor_below s _ H B) as FB.
  change 60 with (inject_Z (Zpos 60)) at 1.
  rewrite (floor_fdiv s 60 I H) by exact B.
  change (inject_Z (Zpos 60)) with 60.
  pose proof (floor_rem_60 s H) as R. unfold Math_floor in R. rewrite R.
  pose proof (Z.mod_pos_bound (Qfloor s) 60 ltac:(lia)) as M.
  rewrite !numberToString_small.
  - rewrite padStart_two_digits by lia. reflexivity.
  - lia.
  - rewrite Qfloor_div_60.
    assert (0 <= Qfloor s / 60 <= Qfloor s)%Z.
    { split; [apply Z.div_pos; lia|].
      apply Z.div_le_upper_bound; lia. }
    lia.
Qed.

End FormatTime.

(** ** The ordering invariant *)
Section Sortedness.
Import Js Editor Spec.
Local Open Scope Q_scope.

Lemma le_start_trans : Relation_Definitions.transitive _ le_start.
Proof.
  intros x y z. unfold le_start. apply Qle_trans.
Qed.

Lemma sorted_by_start_Sorted (l : list TranscriptSegment) :
  sorted_by_start l = true <-> Sorted le_start l.
Proof.
  induction l as [|x [|y l] IH].
  - split; [constructor | reflexivity].
  - split; [repeat constructor | reflexivity].
  - change (sorted_by_start (x :: y :: l))
      with (Qle_bool (start_time x) (start_time y) && sorted_by_start (y :: l)).
    rewrite andb_true_iff, Qle_bool_iff, IH. split.
    + intros [H1 H2]. constructor; [exact H2 | constructor; exact H1].
    + intros H. inversion H as [|? ? S R]; subst.
      inversion R; subst. split; assumption.
Qed.

Lemma sorted_by_start_strongly (l : list TranscriptSegment) :
  sorted_by_start l = true <-> StronglySorted le_start l.
Proof.
  rewrite sorted_by_start_Sorted. split.
  - apply Sorted_StronglySorted, le_start_trans.
  - apply StronglySorted_Sorted.
Qed.

(** Dropping segments keeps the order. *)
Lemma strongly_sorted_filter (f : TranscriptSegment -> bool)
  (l : list TranscriptSegment) :
  StronglySorted le_start l -> StronglySorted le_start (filter f l).
Proof.
  induction 1 as [|x l S IH F]; simpl; [constructor|].
  destruct (f x); [|exact IH].
  constructor; [exact IH|].
  rewrite Forall_forall in *. intros y Hy.
  apply filter_In in Hy. apply F, Hy.
Qed.

(** Rewriting segments without touching their start times keeps the
    order. *)
Lemma sorted_map_same_start (g : TranscriptSegment -> TranscriptSegment)
  (l : list TranscriptSegment) :
  (forall seg, start_time (g seg) = start_time seg) ->
  sorted_by_start l = true -> sorted_by_start (map g l) = true.
Proof.
  intros G.
  induction l as [|x [|y l] IH]; try reflexivity.
  change (sorted_by_start (x :: y :: l))
    with (Qle_bool (start_time x) (start_time y) && sorted_by_start (y :: l)).
  change (sorted_by_start (map g (x :: y :: l)))
    with (Qle_bool (start_time (g x)) (start_time (g y))
          && sorted_by_start (map g (y :: l))).
  rewrite !G, !andb_true_iff. intros [H1 H2]. split; [exact H1 | exact (IH H2)].
Qed.

End Sortedness.

(** ** The editor's operations *)
Section EditorFacts.
Import Js Editor Spec.
Local Open Scope Q_scope.

Lemma retext_start (i t : string) (seg : TranscriptSegment) :
  start_time (if id seg =? i then with_text seg t else seg)%string
  = start_time seg.
Proof. now destruct (id seg =? i)%string. Qed.

Lemma relabel_start (i sp : string) (seg : TranscriptSegment) :
  start_time (if id seg =? i then with_speaker seg sp else seg)%string
  = start_time seg.
Proof. now destruct (id seg =? i)%string. Qed.

(** Edits leave the directory and the duration cell alone. *)
Lemma apply_edit_frame (s : EditorState) (e : Edit) :
  recordingDir (apply_edit s e) = recordingDir s
  /\ st_duration (apply_edit s e) = st_duration s.
Proof. destruct e; split; reflexivity. Qed.

Lemma edits_frame (edits : list Edit) (s : EditorState) :
  recordingDir (fold_left apply_edit edits s) = recordingDir s
  /\ st_duration (fold_left apply_edit edits s) = st_duration s.
Proof.
  revert s. induction edits as [|e edits IH]; intros s; simpl.
  - split; reflexivity.
  - destruct (IH (apply_edit s e)) as [D T].
    destruct (apply_edit_frame s e) as [D' T'].
    split; congruence.
Qed.

(** A save from a state with a directory invokes the back end exactly
    once, however the back end answers. *)
Lemma handleSave_invokes
  (save_backend : string -> TranscriptionResult -> string + unit)
  (s : EditorState) :
  recordingDir s <> ""%string ->
  invoked (run (handleSave save_backend) s)
  = [save_edited_transcript (recordingDir s) (buildTranscript s)].
Proof.
  intros H. apply String.eqb_neq in H.
  unfold run, handleSave, bind, get. simpl. rewrite H.
  unfold try_catch_finally, invoke_save, call, bind, set, ret. simpl.
  destruct (save_backend (recordingDir s) (buildTranscript s));
    reflexivity.
Qed.

End EditorFacts.

(** ** The max end time *)
Section MaxEndTime.
Import Js Editor Spec.
Local Open Scope Q_scope.

Lemma fold_max_bounds (l : list TranscriptSegment) (acc : Q) :
  acc <= fold_left max_step l acc
  /\ Forall (fun s => end_time s <= fold_left max_step l acc) l.
Proof.
  revert acc. induction l as [|x l IH]; intros acc; simpl.
  - split; [apply Qle_refl | constructor].
  - destruct (IH (max_step acc x)) as [A F]. split.
    + eapply Qle_trans; [apply Q.le_max_l | exact A].
    + constructor; [|exact F].
      eapply Qle_trans; [apply Q.le_max_r | exact A].
Qed.

Lemma fold_max_attained (l : list TranscriptSegment) (acc : Q) :
  fold_left max_step l acc == acc
  \/ Exists (fun s => fold_left max_step l acc == end_time s) l.
Proof.
  revert acc. induction l as [|x l IH]; intros acc; simpl.
  - left. reflexivity.
  - destruct (IH (max_step acc x)) as [E | E].
    + destruct (Q.max_dec acc (end_time x)) as [M | M].
      * left. exact (Qeq_trans _ _ _ E M).
      * right. apply Exists_cons_hd. exact (Qeq_trans _ _ _ E M).
    + right. now apply Exists_cons_tl.
Qed.

(** [max_end_time] bounds every end time, and on a non-empty list it is
    the end time of one of the segments. *)
Lemma max_end_time_is_max (l : list TranscriptSegment) :
  Forall (fun s => end_time s <= max_end_time l) l
  /\ (l <> [] -> Exists (fun s => max_end_time l == end_time s) l).
Proof.
  destruct l as [|x l]; [split; [constructor | congruence]|].
  unfold max_end_time. split.
  - destruct (fold_max_bounds l (end_time x)) as [A F].
    constructor; assumption.
  - intros _. destruct (fold_max_attained l (end_time x)) as [E | E].
    + now apply Exists_cons_hd.
    + now apply Exists_cons_tl.
Qed.

End MaxEndTime.

(** ** The merge *)
Section MergeFacts.
Import Js Editor Spec Merge.
Local Open Scope Q_scope.

Lemma merge_nil_r (a : list TranscriptSegment) : merge a [] = a.
Proof. destruct a; reflexivity. Qed.

Lemma merge_cons_cons (x y : TranscriptSegment)
  (a b : list TranscriptSegment) :
  merge (x :: a) (y :: b)
  = if Qle_bool (start_time x) (start_time y)
    then x :: merge a (y :: b)
    else y :: merge (x :: a) b.
Proof. reflexivity. Qed.

(** An induction principle that follows the merge. *)
Lemma merge_ind (P : list TranscriptSegment -> list TranscriptSegment ->
                     list TranscriptSegment -> Prop) :
  (forall b, P [] b b) ->
  (forall x a, P (x :: a) [] (x :: a)) ->
  (forall x a y b,
      Qle_bool (start_time x) (start_time y) = true ->
      P a (y :: b) (merge a (y :: b)) ->
      P (x :: a) (y :: b) (x :: merge a (y :: b))) ->
  (forall x a y b,
      Qle_bool (start_time x) (start_time y) = false ->
      P (x :: a) b (merge (x :: a) b) ->
      P (x :: a) (y :: b) (y :: merge (x :: a) b)) ->
  forall a b, P a b (merge a b).
Proof.
  intros Hnil Hnil' Hl Hr.
  induction a as [|x a IHa]; [exact Hnil|].
  induction b as [|y b IHb]; [apply Hnil'|].
  rewrite merge_cons_cons.
  destruct (Qle_bool (start_time x) (start_time y)) eqn:E.
  - apply Hl; [exact E | apply IHa].
  - apply Hr; [exact E | exact IHb].
Qed.

Lemma merge_permutation (a b : list TranscriptSegment) :
  Permutation (a ++ b) (merge a b).
Proof.
  apply (merge_ind (fun a b m => Permutation (a ++ b) m)).
  - intros; apply Permutation_refl.
  - intros. rewrite app_nil_r. apply Permutation_refl.
  - intros x a' y b' _ IH. simpl. now constructor.
  - intros x a' y b' _ IH.
    eapply Permutation_trans; [|apply perm_skip, IH].
    symmetry. apply Permutation_middle.
Qed.

Lemma not_le_start (x y : TranscriptSegment) :
  Qle_bool (start_time x) (start_time y) = false ->
  start_time y < start_time x.
Proof.
  intros E. apply Qnot_le_lt. intros L.
  apply Qle_bool_iff in L. congruence.
Qed.

Lemma merge_HdRel (z : TranscriptSegment) (a b : list TranscriptSegment) :
  HdRel le_start z a -> HdRel le_start z b -> HdRel le_start z (merge a b).
Proof.
  destruct a as [|x a]; [intros _ H; exact H|].
  destruct b as [|y b]; [intros H _; exact H|].
  rewrite merge_cons_cons. intros Ha Hb.
  inversion Ha; inversion Hb; subst.
  destruct (Qle_bool (start_time x) (start_time y)); now constructor.
Qed.

Lemma merge_Sorted (a b : list TranscriptSegment) :
  Sorted le_start a -> Sorted le_start b -> Sorted le_start (merge a b).
Proof.
  apply (merge_ind (fun a b m =>
    Sorted le_start a -> Sorted le_start b -> Sorted le_start m)).
  - intros; assumption.
  - intros; assumption.
  - intros x a' y b' E IH Sa Sb.
    inversion Sa as [|? ? Sa' Ra]; subst.
    constructor; [now apply IH|].
    apply merge_HdRel; [exact Ra|].
    constructor. now apply Qle_bool_iff.
  - intros x a' y b' E IH Sa Sb.
    inversion Sb as [|? ? Sb' Rb]; subst.
    constructor; [now apply IH|].
    apply merge_HdRel; [|exact Rb].
    constructor. apply Qlt_le_weak, not_le_start, E.
Qed.

(** Nothing in a sorted list starts before its head. *)
Lemma starting_at_later (t : Q) (a : list TranscriptSegment)
  (x : TranscriptSegment) :
  Sorted le_start (x :: a) -> t < start_time x ->
  starting_at t (x :: a) = [].
Proof.
  intros S L.
  apply Sorted_StronglySorted in S; [|exact le_start_trans].
  assert (F : Forall (fun s => t < start_time s) (x :: a)).
  { inversion S as [|? ? _ F]; subst. constructor; [exact L|].
    eapply Forall_impl; [|exact F].
    intros s Hs. eapply Qlt_le_trans; [exact L | exact Hs]. }
  unfold starting_at. clear S L.
  induction F as [|s l Hs _ IH]; [reflexivity|]. simpl.
  destruct (Qeq_bool (start_time s) t) eqn:E; [|exact IH].
  apply Qeq_bool_eq in E. rewrite E in Hs.
  exfalso. exact (Qlt_irrefl _ Hs).
Qed.

Lemma merge_starting_at (t : Q) (a b : list TranscriptSegment) :
  Sorted le_start a ->
  starting_at t (merge a b) = (starting_at t a ++ starting_at t b)%list.
Proof.
  apply (merge_ind (fun a b m =>
    Sorted le_start a ->
    starting_at t m = (starting_at t a ++ starting_at t b)%list)).
  - reflexivity.
  - intros. now rewrite app_nil_r.
  - intros x a' y b' _ IH Sa.
    inversion Sa as [|? ? Sa' _]; subst.
    unfold starting_at in *. simpl filter at 1 2.
    destruct (Qeq_bool (start_time x) t); rewrite (IH Sa'); reflexivity.
  - intros x a' y b' E IH Sa.
    change (starting_at t (y :: merge (x :: a') b'))
      with (if Qeq_bool (start_time y) t
            then y :: starting_at t (merge (x :: a') b')
            else starting_at t (merge (x :: a') b')).
    change (starting_at t (y :: b'))
      with (if Qeq_bool (start_time y) t
            then y :: starting_at t b' else starting_at t b').
    rewrite (IH Sa).
    destruct (Qeq_bool (start_time y) t) eqn:T; [|reflexivity].
    apply Qeq_bool_eq in T.
    rewrite (starting_at_later t a' x Sa); [reflexivity|].
    rewrite <- T. apply not_le_start, E.
Qed.

(** With two different labels, the label tells the inputs apart, and each
    comes back in its own order. *)
Lemma merge_filter_speaker (la lb : string) (a b : list TranscriptSegment) :
  la <> lb -> homogeneous la a -> homogeneous lb b ->
  filter (fun s => speaker s =? la)%string (merge a b) = a
  /\ filter (fun s => speaker s =? lb)%string (merge a b) = b.
Proof.
  intros N.
  assert (Own : forall l c, homogeneous l c ->
                  filter (fun s => speaker s =? l)%string c = c).
  { intros l c H. induction H as [|s c Hs _ IH]; [reflexivity|]. simpl.
    rewrite Hs, String.eqb_refl, IH. reflexivity. }
  assert (Other : forall l l' c, l <> l' -> homogeneous l c ->
                    filter (fun s => speaker s =? l')%string c = []).
  { intros l l' c D H. induction H as [|s c Hs _ IH]; [reflexivity|]. simpl.
    rewrite Hs. apply String.eqb_neq in D. rewrite D. exact IH. }
  apply (merge_ind (fun a b m =>
    homogeneous la a -> homogeneous lb b ->
    filter (fun s => speaker s =? la)%string m = a
    /\ filter (fun s => speaker s =? lb)%string m = b)).
  - intros b' _ Hb. split; [now apply (Other lb la); auto | now apply Own].
  - intros x a' Ha _. split; [now apply Own | now apply (Other la lb)].
  - intros x a' y b' _ IH Ha Hb.
    inversion Ha as [|? ? Hx Ha']; subst.
    destruct (IH Ha' Hb) as [I1 I2]. simpl.
    rewrite String.eqb_refl, I1.
    apply String.eqb_neq in N. rewrite N. split; [reflexivity | exact I2].
  - intros x a' y b' _ IH Ha Hb.
    inversion Hb as [|? ? Hy Hb']; subst.
    destruct (IH Ha Hb') as [I1 I2].
    cbn [filter].
    rewrite String.eqb_refl, I1, I2.
    assert (N' : speaker y <> la) by congruence.
    apply String.eqb_neq in N'. rewrite N'. split; reflexivity.
Qed.

End MergeFacts.

(** ** The claims about the editor *)
Section EditorClaims.
Import Js Editor Spec Samples.
Local Open Scope Q_scope.

(** The cases of the front end's own test suite. *)
Example formatTime_tests :
  formatTime 0 = "0:00"%string /\ formatTime 5 = "0:05"%string
  /\ formatTime 30 = "0:30"%string /\ formatTime 59 = "0:59"%string
  /\ formatTime 60 = "1:00"%string /\ formatTime 90 = "1:30"%string
  /\ formatTime 125 = "2:05"%string /\ formatTime 3661 = "61:01"%string
  /\ formatTime (round_double 5.9) = "0:05"%string.
Proof. repeat split; vm_compute; reflexivity. Qed.

(** Beyond [2^53]: the quotient is rounded and the minutes are printed with
    the shortest digits that read back. *)
Example formatTime_huge :
  formatTime (inject_Z (10 ^ 21)) = "16666666666666666000:40"%string
  /\ formatTime (round_double (inject_Z (10 ^ 23)))
     = "1.6666666666666665e+21:32"%string.
Proof. split; vm_compute; reflexivity. Qed.

(** C10, as stated, fails: the minutes are the floor of a quotient of
    doubles, which is rounded.  At 60 * 2^50 + 56 seconds, a double, the
    quotient by 60 rounds up to 2^50 + 1, and [formatTime] shows one minute
    more than floor(s/60). *)
Lemma formatTime_rounds_the_quotient :
  is_double (inject_Z (60 * 2 ^ 50 + 56)) = true
  /\ 0 <= inject_Z (60 * 2 ^ 50 + 56)
  /\ formatTime (inject_Z (60 * 2 ^ 50 + 56)) = "1125899906842625:56"%string
  /\ (toString (Qfloor (inject_Z (60 * 2 ^ 50 + 56) / 60)) ++ ":"
       ++ two_digits (Qfloor (inject_Z (60 * 2 ^ 50 + 56)) mod 60))%string
      = "1125899906842624:56"%string
  /\ formatTime (inject_Z (60 * 2 ^ 50 + 56))
      <> (toString (Qfloor (inject_Z (60 * 2 ^ 50 + 56) / 60)) ++ ":"
          ++ two_digits (Qfloor (inject_Z (60 * 2 ^ 50 + 56)) mod 60))%string.
Proof.
  vm_compute. repeat split; discriminate.
Qed.

(** C10, amended: for every double [s] with 0 <= s < 2^53, [formatTime s]
    is the decimal form of floor(s/60), a colon, and floor(s) mod 60 as two
    zero-padded digits; fractions are floored and minutes are not wrapped
    into hours: [formatTime 3600] is "60:00" and [formatTime 65.5] is
    "1:05". *)
Theorem formatTime_minutes_colon_seconds (s : Q) :
  is_double s = true -> 0 <= s -> s < inject_Z (2 ^ 53) ->
  formatTime s
  = (toString (Qfloor (s / 60)) ++ ":" ++ two_digits (Qfloor s mod 60))%string
  /\ formatTime 3600 = "60:00"%string
  /\ formatTime 65.5 = "1:05"%string.
Proof.
  intros I H B. split; [exact (formatTime_nonneg s I H B)|].
  split; vm_compute; reflexivity.
Qed.

Lemma formatTime_minutes_colon_seconds_witness :
  is_double 3661.25 = true /\ 0 <= 3661.25 /\ 3661.25 < inject_Z (2 ^ 53)
  /\ formatTime 3661.25
     = (toString (Qfloor (3661.25 / 60)) ++ ":"
        ++ two_digits (Qfloor 3661.25 mod 60))%string
  /\ formatTime 3600 = "60:00"%string
  /\ formatTime 65.5 = "1:05"%string.
Proof.
  split; [vm_compute; reflexivity|].
  split; [discriminate|]. split; [reflexivity|].
  apply (formatTime_minutes_colon_seconds 3661.25);
    [vm_compute; reflexivity | discriminate | reflexivity].
Defined.

(** C3: the full text the editor derives is the string "[speaker] text" of
    each segment, in the order of the segment list, with a single newline
    between consecutive entries, and the empty string for no segment. *)
Theorem buildTranscript_full_text_newline_separated (s : EditorState) :
  full_text (buildTranscript s)
  = newline_separated
      (map (fun seg => "[" ++ speaker seg ++ "] " ++ text seg)%string
         (st_segments s))
  /\ full_text (buildTranscript (setSegments (fun _ => []) s)) = ""%string.
Proof.
  split; [exact (buildTranscript_full_text s) | reflexivity].
Qed.

(** C5: on a segment list sorted by non-decreasing start time, changing a
    segment's text, changing a segment's speaker and deleting a segment by
    id each leave a list sorted by non-decreasing start time. *)
Theorem edits_keep_segments_sorted (e : Edit) (s : EditorState) :
  sorted_by_start (st_segments s) = true ->
  sorted_by_start (st_segments (apply_edit s e)) = true.
Proof.
  intros H. destruct e as [i t | i sp | i]; simpl.
  - apply sorted_map_same_start; [apply retext_start | exact H].
  - apply sorted_map_same_start; [apply relabel_start | exact H].
  - apply sorted_by_start_strongly, strongly_sorted_filter.
    now apply sorted_by_start_strongly.
Qed.

Lemma edits_keep_segments_sorted_witness :
  sorted_by_start (st_segments (onEditorData payload initial)) = true
  /\ sorted_by_start
       (st_segments (apply_edit (onEditorData payload initial) (Delete "a")))
     = true.
Proof.
  split; [reflexivity|].
  apply (edits_keep_segments_sorted (Delete "a")). reflexivity.
Defined.

(** C8: for every segment list, a text change with (i, t) keeps the length
    and the order of the list; the segment at each position keeps its id,
    start time, end time and speaker, gets the text [t] if its id is [i],
    and is untouched otherwise.  A speaker change does the same with the
    speaker field. *)
Theorem change_touches_one_field (i v : string) (s : EditorState) :
  List.length (st_segments (handleTextChange i v s))
  = List.length (st_segments s)
  /\ List.length (st_segments (handleSpeakerChange i v s))
     = List.length (st_segments s)
  /\ forall (k : nat) (seg : TranscriptSegment),
      nth_error (st_segments s) k = Some seg ->
      (exists seg',
          nth_error (st_segments (handleTextChange i v s)) k = Some seg'
          /\ id seg' = id seg /\ start_time seg' = start_time seg
          /\ end_time seg' = end_time seg /\ speaker seg' = speaker seg
          /\ (id seg = i -> text seg' = v)
          /\ (id seg <> i -> seg' = seg))
      /\ (exists seg',
             nth_error (st_segments (handleSpeakerChange i v s)) k = Some seg'
             /\ id seg' = id seg /\ start_time seg' = start_time seg
             /\ end_time seg' = end_time seg /\ text seg' = text seg
             /\ (id seg = i -> speaker seg' = v)
             /\ (id seg <> i -> seg' = seg)).
Proof.
  simpl.
  split; [apply length_map|]. split; [apply length_map|].
  intros k seg H. split.
  - eexists. split; [apply map_nth_error, H|].
    destruct (String.eqb_spec (id seg) i) as [E | E]; simpl;
      repeat split; try reflexivity; intros; congruence.
  - eexists. split; [apply map_nth_error, H|].
    destruct (String.eqb_spec (id seg) i) as [E | E]; simpl;
      repeat split; try reflexivity; intros; congruence.
Qed.

Lemma change_touches_one_field_witness :
  nth_error (st_segments (onEditorData payload initial)) 1 = Some seg_b
  /\ List.length
       (st_segments
          (handleTextChange "b" "hello" (onEditorData payload initial)))
     = 2%nat
  /\ List.length (st_segments (handleTextChange "b" "hello" initial)) = 0%nat
  /\ exists seg',
       nth_error
         (st_segments
            (handleTextChange "b" "hello" (onEditorData payload initial))) 1
       = Some seg'
       /\ text seg' = "hello"%string /\ speaker seg' = "Meeting"%string.
Proof.
  split; [reflexivity|].
  destruct (change_touches_one_field "b" "hello"
              (onEditorData payload initial)) as (L & _ & P).
  destruct (change_touches_one_field "b" "hello" initial) as (L0 & _ & _).
  split; [exact L|]. split; [exact L0|].
  destruct (P 1%nat seg_b eq_refl) as ((seg' & N & _ & _ & _ & S & T & _) & _).
  exists seg'. split; [exact N|]. split; [apply T; reflexivity | exact S].
Defined.

(** C9: with the empty string as recording directory, a save returns at
    once: no command is invoked and no cell of the state changes. *)
Theorem handleSave_without_directory
  (save_backend : string -> TranscriptionResult -> string + unit)
  (w : World) :
  recordingDir (ui w) = ""%string ->
  handleSave save_backend w = (inr tt, w).
Proof.
  intros H. unfold handleSave, bind, get. now rewrite H.
Qed.

Lemma handleSave_without_directory_witness :
  recordingDir (ui {| ui := handleDelete "a" initial; invoked := [] |})
  = ""%string
  /\ handleSave (fun _ _ => inl "unreachable"%string)
       {| ui := handleDelete "a" initial; invoked := [] |}
     = (inr tt, {| ui := handleDelete "a" initial; invoked := [] |}).
Proof.
  split; [reflexivity|].
  apply handleSave_without_directory. reflexivity.
Defined.

(** C1, as stated, fails: after loading a recording of duration 10 and
    deleting the segment that ends last, the transcript handed to
    [save_edited_transcript] still has duration 10, while the max end time
    of its segments is 5. *)
Lemma save_after_delete_hands_over_loaded_duration :
  let s := handleDelete "b" (onEditorData payload initial) in
  exists t,
    invoked (run (handleSave (fun _ _ => inr tt)) s)
    = [save_edited_transcript "rec" t]
    /\ segments t = [seg_a]
    /\ max_end_time (segments t) == 5
    /\ duration t == 10
    /\ ~ duration t == max_end_time (segments t).
Proof.
  eexists. split; [reflexivity|]. simpl.
  repeat split; discriminate.
Qed.

(** C1, amended: whatever edits were made since the transcript was
    loaded, a save hands [save_edited_transcript] the current segments,
    the full text rebuilt from those segments, and the duration the
    transcript was loaded with. *)
Theorem handleSave_rebuilds_text_keeps_loaded_duration
  (save_backend : string -> TranscriptionResult -> string + unit)
  (p : EditorPayload) (s0 : EditorState) (edits : list Edit) :
  recording_dir p <> ""%string ->
  invoked (run (handleSave save_backend)
             (fold_left apply_edit edits (onEditorData p s0)))
  = [save_edited_transcript (recording_dir p)
       {| segments :=
            st_segments (fold_left apply_edit edits (onEditorData p s0));
          full_text :=
            derived_full_text
              (st_segments (fold_left apply_edit edits (onEditorData p s0)));
          duration := duration (transcript p) |}].
Proof.
  intros H.
  destruct (edits_frame edits (onEditorData p s0)) as [D T].
  simpl in D, T.
  rewrite handleSave_invokes by (rewrite D; exact H).
  rewrite D. f_equal. f_equal.
  rewrite <- buildTranscript_full_text, <- T. reflexivity.
Qed.

Lemma handleSave_rebuilds_text_keeps_loaded_duration_witness :
  recording_dir payload <> ""%string
  /\ invoked (run (handleSave (fun _ _ => inr tt))
                (fold_left apply_edit [Delete "b"; TextChange "a" "hello"]
                   (onEditorData payload initial)))
     = [save_edited_transcript "rec"
          {| segments := [with_text seg_a "hello"];
             full_text := "[Me] hello";
             duration := 10 |}].
Proof.
  split; [discriminate|].
  apply (handleSave_rebuilds_text_keeps_loaded_duration
           (fun _ _ => inr tt) payload initial
           [Delete "b"; TextChange "a" "hello"]).
  discriminate.
Defined.

End EditorClaims.

(** ** The claims about the merge *)
Section MergeClaims.
Import Js Editor Spec Merge Samples.
Local Open Scope Q_scope.

(** The ordering example of the spec, and a tie between the sources. *)
Example merge_ordering : merge [x0; x5] [y2] = [x0; y2; x5].
Proof. reflexivity. Qed.

Example merge_tie :
  merge [x0; x5] [y2; y5] = [x0; y2; x5; y5]
  /\ merge [y2; y5] [x0; x5] = [x0; y2; y5; x5].
Proof. split; reflexivity. Qed.

(** C2: for two segment lists, each sorted by start time and each carrying
    one speaker label, the merge is sorted by non-decreasing start time
    and holds exactly the segments of both inputs; the segments that start
    at one same time come out in the order of the inputs, those of the
    first list and then those of the second, and when the two labels
    differ each input is found again, in its own order, under its
    label. *)
Theorem merge_sorted_complete_stable (la lb : string)
  (a b : list TranscriptSegment) :
  sorted_by_start a = true -> sorted_by_start b = true ->
  homogeneous la a -> homogeneous lb b ->
  sorted_by_start (merge a b) = true
  /\ Permutation (a ++ b) (merge a b)
  /\ (forall t,
         starting_at t (merge a b)
         = (starting_at t a ++ starting_at t b)%list)
  /\ (la <> lb ->
      filter (fun s => speaker s =? la)%string (merge a b) = a
      /\ filter (fun s => speaker s =? lb)%string (merge a b) = b).
Proof.
  intros Sa Sb Ha Hb.
  apply sorted_by_start_Sorted in Sa, Sb.
  split; [apply sorted_by_start_Sorted, merge_Sorted; assumption|].
  split; [apply merge_permutation|].
  split; [intros t; apply merge_starting_at, Sa|].
  intros N. now apply merge_filter_speaker.
Qed.

Lemma merge_sorted_complete_stable_witness :
  sorted_by_start [x0; x5] = true /\ sorted_by_start [y2; y5] = true
  /\ homogeneous "X" [x0; x5] /\ homogeneous "Y" [y2; y5]
  /\ sorted_by_start (merge [x0; x5] [y2; y5]) = true
  /\ starting_at 5 (merge [x0; x5] [y2; y5]) = [x5; y5].
Proof.
  assert (Ha : homogeneous "X" [x0; x5]) by (repeat constructor).
  assert (Hb : homogeneous "Y" [y2; y5]) by (repeat constructor).
  destruct (merge_sorted_complete_stable "X" "Y" [x0; x5] [y2; y5]
              eq_refl eq_refl Ha Hb) as (S & _ & T & _).
  split; [reflexivity|]. split; [reflexivity|].
  split; [exact Ha|]. split; [exact Hb|]. split; [exact S|].
  rewrite (T 5). reflexivity.
Defined.

(** C4: merging a non-empty list [L] with the empty list, on either side,
    gives [L] back unchanged, and the transcript built from it has the
    full text and the duration derived from [L]; neither input needs to
    be non-empty. *)
Theorem merge_with_empty_list (L : list TranscriptSegment)
  (a_recording b_recording : Q) :
  L <> [] ->
  merge L [] = L /\ merge [] L = L
  /\ merge_transcripts L [] a_recording b_recording
     = {| segments := L; full_text := derived_full_text L;
          duration := max_end_time L |}
  /\ merge_transcripts [] L a_recording b_recording
     = {| segments := L; full_text := derived_full_text L;
          duration := max_end_time L |}
  /\ segments (merge_transcripts [] [] a_recording b_recording) = [].
Proof.
  intros H. unfold merge_transcripts.
  rewrite merge_nil_r. change (merge [] L) with L.
  destruct L as [|x L]; [congruence|].
  repeat split; reflexivity.
Qed.

Lemma merge_with_empty_list_witness :
  [x0; x5] <> []
  /\ merge [x0; x5] [] = [x0; x5] /\ merge [] [x0; x5] = [x0; x5]
  /\ full_text (merge_transcripts [] [x0; x5] 9 8)
     = ("[X] hi" ++ LF ++ "[X] there")%string
  /\ duration (merge_transcripts [] [x0; x5] 9 8) = 6.
Proof.
  assert (N : [x0; x5] <> []) by discriminate.
  destruct (merge_with_empty_list [x0; x5] 9 8 N) as (A & B & _ & D & _).
  split; [exact N|]. split; [exact A|]. split; [exact B|].
  rewrite D. split; reflexivity.
Defined.

End MergeClaims.

(** ** The claims about the capture controller *)
Section ControllerClaims.
Import Js Recorder Controller Samples.
Local Open Scope Q_scope.

(** C6: [get_recording_stats] is absent when the controller is idle, and
    is a snapshot of the elapsed time and the two sample counts only while
    recording, so it is absent again after any stop; the polling callback
    takes the absent result as a normal outcome: the cells are left as they
    are and nothing is logged, unlike a rejected call, which logs an
    error. *)
Theorem stats_absent_unless_recording (e : Env) (import : string + Plugin)
  (st : PollState) :
  get_recording_stats e Idle = None
  /\ (forall s,
         get_recording_stats e (Recording s)
         = Some {| duration_secs := now e - start_instant s;
                   system_samples_written := system_samples s;
                   mic_samples_written := mic_samples s |})
  /\ (forall s, get_recording_stats e (Stopping s) = None)
  /\ (forall err, get_recording_stats e (Failed err) = None)
  /\ (forall e' c,
         get_recording_stats e (snd (fst (stop_recording e' c))) = None)
  /\ poll_tick import (inr (get_recording_stats e Idle)) st = (st, [])
  /\ (forall err,
         poll_tick import (inl err) st
         = (st, [ConsoleError "Failed to get recording stats:" err])).
Proof.
  repeat split. intros e' c. destruct c; reflexivity.
Qed.

(** C7: [start_recording] in a state other than idle fails with "already
    recording", and [stop_recording] in a state other than recording fails
    with the invalid-state error; either way no work is done and the state
    is the one before the call. *)
Theorem commands_rejected_in_wrong_state (e : Env) (c1 c2 : State) :
  is_idle c1 = false -> is_recording c2 = false ->
  start_recording e c1 = (inl AlreadyRecording, c1, [])
  /\ stop_recording e c2 = (inl NotRecording, c2, []).
Proof.
  intros H1 H2. split.
  - destruct c1; [discriminate H1 | reflexivity ..].
  - destruct c2; try reflexivity. discriminate H2.
Qed.

Lemma commands_rejected_in_wrong_state_witness :
  is_idle (Recording session) = false /\ is_recording Idle = false
  /\ start_recording env (Recording session)
     = (inl AlreadyRecording, Recording session, [])
  /\ stop_recording env Idle = (inl NotRecording, Idle, []).
Proof.
  split; [reflexivity|]. split; [reflexivity|].
  apply (commands_rejected_in_wrong_state env (Recording session) Idle);
    reflexivity.
Defined.

(** A whole session on the sample machine: start, poll, stop, stop
    again. *)
Example session_run :
  let '(r1, c1, _) := start_recording env Idle in
  let '(r2, c2, _) := stop_recording env c1 in
  let '(r3, c3, w3) := stop_recording env c2 in
  r1 = inr tt /\ is_recording c1 = true
  /\ (exists o, r2 = inr o /\ directory o = "rec2"%string)
  /\ c2 = Idle /\ r3 = inl NotRecording /\ c3 = Idle /\ w3 = [].
Proof. simpl. repeat split. eexists. split; reflexivity. Qed.

End ControllerClaims.

(** ** Decimal digits *)
Section DecimalDigits.
Import Js Spec.

Lemma digits_revapp (d acc : Decimal.uint) :
  NilEmpty.string_of_uint (Decimal.revapp d acc)
  = NilEmpty.string_of_uint (Decimal.revapp d Decimal.Nil)
    ++ NilEmpty.string_of_uint acc.
Proof.
  revert acc.
  induction d as [|d IH|d IH|d IH|d IH|d IH|d IH|d IH|d IH|d IH|d IH];
    intros acc; simpl;
    [reflexivity | rewrite IH, (IH (_ Decimal.Nil)), string_app_assoc;
                   reflexivity ..].
Qed.

Lemma nilzero_nonnil (d : Decimal.uint) :
  d <> Decimal.Nil ->
  NilZero.string_of_uint d = NilEmpty.string_of_uint d.
Proof. destruct d; [congruence | reflexivity ..]. Qed.

(** The little-endian digits of [10 q + r]. *)
Lemma little_digits_tenfold (q : positive) (r : N) :
  (r < 10)%N ->
  exists c,
    DecimalPos.Unsigned.to_lu (10 * Npos q + r)
    = c (Pos.to_little_uint q)
    /\ (forall d acc,
           NilEmpty.string_of_uint (Decimal.revapp (c d) acc)
           = NilEmpty.string_of_uint (Decimal.revapp d Decimal.Nil)
             ++ String (digit (Z.of_N r)) (NilEmpty.string_of_uint acc))
    /\ (forall d acc, Decimal.revapp (c d) acc <> Decimal.Nil).
Proof.
  intros H.
  pose proof (DecimalPos.Unsigned.to_ldec_tenfold q) as T.
  change (DecimalPos.Unsigned.to_lu (N.pos q)) with (Pos.to_little_uint q) in T.
  assert (R : In r [0; 1; 2; 3; 4; 5; 6; 7; 8; 9]%N).
  { destruct r as [|p]; [now left|].
    do 4 (destruct p as [p | p |]; simpl; try lia; auto 12). }
  assert (S : forall k, DecimalPos.Unsigned.to_lu (10 * Npos q + N.succ k)
                        = Decimal.Little.succ
                            (DecimalPos.Unsigned.to_lu (10 * Npos q + k))).
  { intros k. rewrite N.add_succ_r. apply DecimalPos.Unsigned.to_lu_succ. }
  assert (Z0 : DecimalPos.Unsigned.to_lu (10 * N.pos q + 0)
               = Decimal.D0 (Pos.to_little_uint q)).
  { rewrite N.add_0_r. exact T. }
  assert (Z1 : DecimalPos.Unsigned.to_lu (10 * N.pos q + 1)
               = Decimal.D1 (Pos.to_little_uint q))
    by (change 1%N with (N.succ 0); rewrite S, Z0; reflexivity).
  assert (Z2 : DecimalPos.Unsigned.to_lu (10 * N.pos q + 2)
               = Decimal.D2 (Pos.to_little_uint q))
    by (change 2%N with (N.succ 1); rewrite S, Z1; reflexivity).
  assert (Z3 : DecimalPos.Unsigned.to_lu (10 * N.pos q + 3)
               = Decimal.D3 (Pos.to_little_uint q))
    by (change 3%N with (N.succ 2); rewrite S, Z2; reflexivity).
  assert (Z4 : DecimalPos.Unsigned.to_lu (10 * N.pos q + 4)
               = Decimal.D4 (Pos.to_little_uint q))
    by (change 4%N with (N.succ 3); rewrite S, Z3; reflexivity).
  assert (Z5 : DecimalPos.Unsigned.to_lu (10 * N.pos q + 5)
               = Decimal.D5 (Pos.to_little_uint q))
    by (change 5%N with (N.succ 4); rewrite S, Z4; reflexivity).
  assert (Z6 : DecimalPos.Unsigned.to_lu (10 * N.pos q + 6)
               = Decimal.D6 (Pos.to_little_uint q))
    by (change 6%N with (N.succ 5); rewrite S, Z5; reflexivity).
  assert (Z7 : DecimalPos.Unsigned.to_lu (10 * N.pos q + 7)
               = Decimal.D7 (Pos.to_little_uint q))
    by (change 7%N with (N.succ 6); rewrite S, Z6; reflexivity).
  assert (Z8 : DecimalPos.Unsigned.to_lu (10 * N.pos q + 8)
               = Decimal.D8 (Pos.to_little_uint q))
    by (change 8%N with (N.succ 7); rewrite S, Z7; reflexivity).
  assert (Z9 : DecimalPos.Unsigned.to_lu (10 * N.pos q + 9)
               = Decimal.D9 (Pos.to_little_uint q))
    by (change 9%N with (N.succ 8); rewrite S, Z8; reflexivity).
  simpl in R.
  repeat (destruct R as [<- | R];
          [ eexists; split;
            [ eassumption | split;
              [ intros d acc; simpl Decimal.revapp; rewrite digits_revapp;
                reflexivity
              | intros d acc N; simpl in N;
                apply DecimalFacts.revapp_nil_inv in N;
                destruct N as [_ N]; discriminate N ] ]
          | ]).
  contradiction.
Qed.


(** The decimal form of a number of two digits or more is the decimal form
    of its tenth followed by its last digit. *)
Lemma toString_snoc (n : Z) :
  (10 <= n)%Z ->
  toString n = toString (n / 10) ++ String (digit (n mod 10)) "".
Proof.
  intros H.
  pose proof (Z.div_mod n 10 ltac:(lia)) as E.
  pose proof (Z.mod_pos_bound n 10 ltac:(lia)) as B.
  assert (Q : (0 < n / 10)%Z) by (apply Z.div_str_pos; lia).
  destruct (n / 10)%Z as [|q|q] eqn:Eq; try lia.
  destruct n as [|p|p]; try lia.
  unfold toString. simpl Z.to_int. unfold Pos.to_int, Pos.to_uint.
  simpl NilZero.string_of_int.
  destruct (little_digits_tenfold q (Z.to_N (Zpos p mod 10)))
    as (c & C & D & N); [lia|].
  assert (P : Npos p = (10 * Npos q + Z.to_N (Zpos p mod 10))%N) by lia.
  change (Pos.to_little_uint p) with (DecimalPos.Unsigned.to_lu (Npos p)).
  rewrite P, C. unfold Decimal.rev.
  rewrite !nilzero_nonnil.
  - rewrite D, Z2N.id by lia. reflexivity.
  - apply (DecimalPos.Unsigned.to_uint_nonnil q).
  - apply N.
Qed.

End DecimalDigits.

(** ** [toFixed] *)
Section ToFixed.
Import Js JsNumber Spec Format.

Lemma length_append (a b : string) :
  String.length (a ++ b) = (String.length a + String.length b)%nat.
Proof. induction a as [|c a IH]; simpl; [reflexivity | now rewrite IH]. Qed.

Lemma substring_all (b : string) : substring 0 (String.length b) b = b.
Proof. induction b as [|c b IH]; simpl; [reflexivity | now rewrite IH]. Qed.

Lemma substring_prefix (a b : string) :
  substring 0 (String.length a) (a ++ b) = a.
Proof.
  induction a as [|c a IH]; simpl; [now destruct b | now rewrite IH].
Qed.

Lemma substring_suffix (a b : string) :
  substring (String.length a) (String.length b) (a ++ b) = b.
Proof.
  induction a as [|c a IH]; simpl; [apply substring_all | exact IH].
Qed.

Lemma small_cases (n : Z) (bound : nat) :
  (0 <= n < Z.of_nat bound)%Z -> In n (map Z.of_nat (seq 0 bound)).
Proof.
  intros H. apply in_map_iff. exists (Z.to_nat n).
  split; [lia | apply in_seq; lia].
Qed.

Lemma toString_length_pos (n : Z) :
  (0 <= n)%Z -> (1 <= String.length (toString n))%nat.
Proof.
  intros H. destruct (Z_lt_le_dec n 10) as [L | L].
  - pose proof (small_cases n 10 (conj H L)) as I.
    cbv [seq map] in I. simpl Z.of_nat in I.
    repeat (destruct I as [<- | I]; [vm_compute; lia|]). contradiction.
  - rewrite (toString_snoc n L), length_append. simpl. lia.
Qed.

Lemma nearest_nonneg (f : nat) (x : Q) : (0 <= x)%Q -> (0 <= nearest f x)%Z.
Proof.
  intros H. unfold nearest. apply floor_nonneg.
  apply Qle_trans with (0 + 0)%Q; [discriminate|].
  apply Qplus_le_compat; [|discriminate].
  apply Qmult_le_0_compat; [exact H|].
  change 0%Q with (inject_Z 0). rewrite <- Zle_Qle. lia.
Qed.

(** One place after the point: the count of tenths. *)
Lemma toFixed_1 (x : Q) :
  (0 <= x)%Q -> toFixed 1 x = tenths (nearest 1 x).
Proof.
  intros H. pose proof (nearest_nonneg 1 x H) as N.
  unfold toFixed, tenths. apply Qle_bool_iff in H. rewrite H.
  cbn [negb]. set (n := nearest 1 x) in *. clearbody n.
  destruct (Z_lt_le_dec n 10) as [L | L].
  - pose proof (small_cases n 10 (conj N L)) as I.
    cbv [seq map] in I. simpl Z.of_nat in I.
    repeat (destruct I as [<- | I]; [vm_compute; reflexivity|]).
    contradiction.
  - rewrite (toString_snoc n L).
    set (a := toString (n / 10)).
    assert (A : (1 <= String.length a)%nat)
      by (apply toString_length_pos, Z.div_pos; lia).
    set (d := String (digit (n mod 10)) "").
    cbn [Nat.eqb]. rewrite length_append.
    change (String.length d) with 1%nat.
    destruct (Nat.leb_spec (String.length a + 1) 1) as [B | _]; [lia|].
    rewrite length_append. change (String.length d) with 1%nat.
    replace (String.length a + 1 - 1)%nat with (String.length a) by lia.
    rewrite substring_prefix.
    change 1%nat with (String.length d) at 1. rewrite substring_suffix.
    reflexivity.
Qed.

(** Two places after the point: the count of hundredths. *)
Lemma toFixed_2 (x : Q) :
  (0 <= x)%Q -> toFixed 2 x = hundredths (nearest 2 x).
Proof.
  intros H. pose proof (nearest_nonneg 2 x H) as N.
  unfold toFixed, hundredths. apply Qle_bool_iff in H. rewrite H.
  cbn [negb]. set (n := nearest 2 x) in *. clearbody n.
  destruct (Z_lt_le_dec n 100) as [L | L].
  - pose proof (small_cases n 100 (conj N L)) as I.
    cbv [seq map] in I. simpl Z.of_nat in I.
    repeat (destruct I as [<- | I]; [vm_compute; reflexivity|]).
    contradiction.
  - rewrite (toString_snoc n) by lia.
    rewrite (toString_snoc (n / 10)) by (apply Z.div_le_lower_bound; lia).
    rewrite Z.div_div by lia. change (10 * 10)%Z with 100%Z.
    set (a := toString (n / 100)).
    assert (A : (1 <= String.length a)%nat)
      by (apply toString_length_pos, Z.div_pos; lia).
    rewrite string_app_assoc.
    replace ((String (digit ((n / 10) mod 10)) "")
             ++ String (digit (n mod 10)) "")
      with (two_digits (n mod 100)).
    2:{ unfold two_digits. simpl. f_equal; [|f_equal]; f_equal.
        - rewrite !Z.mod_eq by lia. rewrite Z.div_div by lia.
          change (10 * 10)%Z with 100%Z.
          pose proof (Z.div_mod n 100 ltac:(lia)).
          pose proof (Z.mod_pos_bound n 100 ltac:(lia)).
          Z.to_euclidean_division_equations. lia.
        - Z.to_euclidean_division_equations. lia. }
    set (d := two_digits (n mod 100)).
    cbn [Nat.eqb]. rewrite length_append.
    change (String.length d) with 2%nat.
    destruct (Nat.leb_spec (String.length a + 2) 2) as [B | _]; [lia|].
    rewrite length_append. change (String.length d) with 2%nat.
    replace (String.length a + 2 - 2)%nat with (String.length a) by lia.
    rewrite substring_prefix.
    change 2%nat with (String.length d) at 1. rewrite substring_suffix.
    reflexivity.
Qed.

End ToFixed.

(** ** [formatBytes] and [formatDuration] *)
Section FormatFacts.
Import Js JsNumber Spec Format Editor.
Local Open Scope Q_scope.

Lemma Qfloor_ratio (p : Z) (q : positive) : Qfloor (p # q) = (p / Zpos q)%Z.
Proof. reflexivity. Qed.

Lemma nearest_KB (b : Z) :
  nearest 1 (inject_Z b / 1024) = ((10 * b + 512) / 1024)%Z.
Proof.
  unfold nearest. rewrite <- Qfloor_ratio. apply Qfloor_comp.
  set (t := (10 * b + 512)%Z).
  unfold Qeq, Qdiv, Qmult, Qplus, Qinv, inject_Z. simpl.
  change (Z.pow_pos 10 1) with 10%Z. unfold t. lia.
Qed.

Lemma nearest_MB (b : Z) :
  nearest 1 (inject_Z b / (1024 * 1024))
  = ((10 * b + 524288) / 1048576)%Z.
Proof.
  unfold nearest. rewrite <- Qfloor_ratio. apply Qfloor_comp.
  set (t := (10 * b + 524288)%Z).
  unfold Qeq, Qdiv, Qmult, Qplus, Qinv, inject_Z. simpl.
  change (Z.pow_pos 10 1) with 10%Z. unfold t. lia.
Qed.

Lemma nearest_GB (b : Z) :
  nearest 2 (inject_Z b / (1024 * 1024 * 1024))
  = ((100 * b + 536870912) / 1073741824)%Z.
Proof.
  unfold nearest. rewrite <- Qfloor_ratio. apply Qfloor_comp.
  set (t := (100 * b + 536870912)%Z).
  unfold Qeq, Qdiv, Qmult, Qplus, Qinv, inject_Z. simpl.
  change (Z.pow_pos 10 2) with 100%Z. unfold t. lia.
Qed.

Lemma ratio_nonneg (b : Z) (d : Q) : (0 <= b)%Z -> 0 < d -> 0 <= inject_Z b / d.
Proof.
  intros B D. apply Qle_shift_div_l; [exact D|].
  rewrite Qmult_0_l. change 0 with (inject_Z 0). now rewrite <- Zle_Qle.
Qed.

(** The cases of the front end's own test suite. *)
Example formatBytes_tests :
  formatBytes 500 = "500 B"%string /\ formatBytes 1023 = "1023 B"%string
  /\ formatBytes 1024 = "1.0 KB"%string /\ formatBytes 1536 = "1.5 KB"%string
  /\ formatBytes 10240 = "10.0 KB"%string
  /\ formatBytes (1024 * 1024) = "1.0 MB"%string
  /\ formatBytes 1572864 = "1.5 MB"%string
  /\ formatBytes (1024 * 1024 * 100) = "100.0 MB"%string
  /\ formatBytes (1024 * 1024 * 1024) = "1.00 GB"%string
  /\ formatBytes 2684354560 = "2.50 GB"%string.
Proof. repeat split; vm_compute; reflexivity. Qed.

Lemma formatBytes_B (b : Z) :
  (b < 1024)%Z -> formatBytes b = (toString b ++ " B")%string.
Proof.
  intros H. unfold formatBytes.
  destruct (Z.ltb_spec b 1024); [reflexivity | lia].
Qed.

Lemma formatBytes_KB (b : Z) :
  (1024 <= b < 1048576)%Z ->
  formatBytes b = (tenths ((10 * b + 512) / 1024) ++ " KB")%string.
Proof.
  intros H. unfold formatBytes.
  change (1024 * 1024)%Z with 1048576%Z.
  destruct (Z.ltb_spec b 1024); [lia|].
  destruct (Z.ltb_spec b 1048576); [|lia].
  rewrite toFixed_1, nearest_KB; [reflexivity|].
  apply ratio_nonneg; [lia | reflexivity].
Qed.

Lemma formatBytes_MB (b : Z) :
  (1048576 <= b < 1073741824)%Z ->
  formatBytes b = (tenths ((10 * b + 524288) / 1048576) ++ " MB")%string.
Proof.
  intros H. unfold formatBytes.
  change (1024 * 1024 * 1024)%Z with 1073741824%Z.
  change (1024 * 1024)%Z with 1048576%Z.
  destruct (Z.ltb_spec b 1024); [lia|].
  destruct (Z.ltb_spec b 1048576); [lia|].
  destruct (Z.ltb_spec b 1073741824); [|lia].
  rewrite toFixed_1, nearest_MB; [reflexivity|].
  apply ratio_nonneg; [lia | reflexivity].
Qed.

Lemma formatBytes_GB (b : Z) :
  (1073741824 <= b)%Z ->
  formatBytes b
  = (hundredths ((100 * b + 536870912) / 1073741824) ++ " GB")%string.
Proof.
  intros H. unfold formatBytes.
  change (1024 * 1024 * 1024)%Z with 1073741824%Z.
  change (1024 * 1024)%Z with 1048576%Z.
  destruct (Z.ltb_spec b 1024); [lia|].
  destruct (Z.ltb_spec b 1048576); [lia|].
  destruct (Z.ltb_spec b 1073741824); [lia|].
  rewrite toFixed_2, nearest_GB; [reflexivity|].
  apply ratio_nonneg; [lia | reflexivity].
Qed.

(** X1: [formatBytes] in whole-number arithmetic.  Below 1024 the count is
    printed as it is; from there on it is the count of tenths of a KB or of
    a MB, or of hundredths of a GB, rounded to the nearest with halves going
    up, and printed with a decimal point. *)
Theorem formatBytes_rounds_half_up (b : Z) :
  formatBytes b
  = (if (b <? 1024)%Z then toString b ++ " B"
     else if (b <? 1048576)%Z
     then tenths ((10 * b + 512) / 1024) ++ " KB"
     else if (b <? 1073741824)%Z
     then tenths ((10 * b + 524288) / 1048576) ++ " MB"
     else hundredths ((100 * b + 536870912) / 1073741824) ++ " GB")%string.
Proof.
  destruct (Z.ltb_spec b 1024); [now apply formatBytes_B|].
  destruct (Z.ltb_spec b 1048576); [apply formatBytes_KB; lia|].
  destruct (Z.ltb_spec b 1073741824); [apply formatBytes_MB; lia|].
  now apply formatBytes_GB.
Qed.

(** X2: rounding happens after the unit is chosen, so a size less than 52
    bytes short of 1 MB reads "1024.0 KB", and one less than about 52 KB
    short of 1 GB reads "1024.0 MB". *)
Theorem formatBytes_overflows_unit (b1 b2 : Z) :
  (1048525 <= b1 < 1048576)%Z -> (1073689396 <= b2 < 1073741824)%Z ->
  formatBytes b1 = "1024.0 KB"%string /\ formatBytes b2 = "1024.0 MB"%string.
Proof.
  intros H1 H2. split.
  - rewrite formatBytes_KB by lia.
    replace ((10 * b1 + 512) / 1024)%Z with 10240%Z; [reflexivity|].
    apply Z.div_unique with (10 * b1 + 512 - 10240 * 1024)%Z; lia.
  - rewrite formatBytes_MB by lia.
    replace ((10 * b2 + 524288) / 1048576)%Z with 10240%Z; [reflexivity|].
    apply Z.div_unique with (10 * b2 + 524288 - 10240 * 1048576)%Z; lia.
Qed.

Lemma formatBytes_overflows_unit_witness :
  (1048525 <= 1048575 < 1048576)%Z
  /\ (1073689396 <= 1073741823 < 1073741824)%Z
  /\ formatBytes 1048575 = "1024.0 KB"%string
  /\ formatBytes 1073741823 = "1024.0 MB"%string.
Proof.
  split; [lia|]. split; [lia|].
  apply (formatBytes_overflows_unit 1048575 1073741823); lia.
Defined.

Lemma Qfloor_div_pos (x : Q) (k : positive) :
  Qfloor (x / inject_Z (Zpos k)) = (Qfloor x / Zpos k)%Z.
Proof.
  destruct x as [p q]. unfold Qfloor, Qdiv, Qmult, Qinv. simpl.
  rewrite Z.mul_1_r, Pos2Z.inj_mul.
  symmetry. apply Z.div_div; lia.
Qed.

Lemma floor_rem_pos (s : Q) (k : positive) :
  0 <= s ->
  Qfloor (rem s (inject_Z (Zpos k))) = (Qfloor s mod Zpos k)%Z.
Proof.
  intros H. unfold rem.
  assert (D : 0 <= s / inject_Z (Zpos k)).
  { unfold Qdiv. apply Qmult_le_0_compat; [exact H|].
    apply Qinv_le_0_compat. discriminate. }
  rewrite (trunc_nonneg _ D), Qfloor_div_pos.
  set (q := (Qfloor s / Zpos k)%Z).
  assert (E : s - inject_Z (Zpos k) * inject_Z q
              == s + inject_Z (- (Zpos k * q))).
  { rewrite inject_Z_opp, inject_Z_mult. unfold Qminus. reflexivity. }
  rewrite (Qfloor_comp _ _ E), Qfloor_add_Z.
  unfold q. rewrite Z.mod_eq by discriminate. lia.
Qed.

(** Beyond [2^53] the hours are a rounded quotient, printed with the
    shortest digits that read back. *)
Example formatDuration_huge :
  formatDuration (inject_Z (10 ^ 21)) = "277777777777777800:46:40"%string.
Proof. vm_compute. reflexivity. Qed.

(** X3: for a double [s] with 0 <= s < 2^53, below one hour
    [formatDuration] is [formatTime]; from one hour on it shows the hours,
    then the minutes and the seconds of the floored value, each as two
    digits. *)
Theorem formatDuration_hours (s : Q) :
  is_double s = true -> 0 <= s -> s < inject_Z (2 ^ 53) ->
  formatDuration s
  = (if (Qfloor s <? 3600)%Z then formatTime s
     else toString (Qfloor s / 3600) ++ ":"
          ++ two_digits ((Qfloor s / 60) mod 60) ++ ":"
          ++ two_digits (Qfloor s mod 60))%string.
Proof.
  intros I H B. pose proof (floor_below s _ H B) as N.
  destruct (rem_is_double s 3600 I H B) as (RI & R0 & RS).
  unfold formatDuration, formatTime, Math_floor.
  change 3600 with (inject_Z (Zpos 3600)).
  change 60 with (inject_Z (Zpos 60)).
  rewrite (floor_fdiv s 3600 I H), (floor_fdiv s 60 I H) by exact B.
  rewrite (floor_fdiv _ 60 RI R0)
    by (eapply Qle_lt_trans; [exact RS | exact B]).
  rewrite !Qfloor_div_pos, !floor_rem_pos by exact H.
  set (n := Qfloor s) in *. clearbody n.
  assert (M : (0 <= n mod 60 < 60)%Z) by (apply Z.mod_pos_bound; lia).
  assert (M' : (0 <= n mod 3600 / 60 < 60)%Z)
    by (Z.to_euclidean_division_equations; lia).
  assert (Q60 : (0 <= n / 60 <= n)%Z)
    by (Z.to_euclidean_division_equations; lia).
  assert (Q3600 : (0 <= n / 3600 <= n)%Z)
    by (Z.to_euclidean_division_equations; lia).
  rewrite !numberToString_small by lia.
  destruct (Z.ltb_spec n 3600) as [L | L].
  - rewrite Z.div_small, Z.mod_small by lia. reflexivity.
  - destruct (Z.ltb_spec 0 (n / 3600)) as [_ | Bad].
    2:{ assert (1 <= n / 3600)%Z by (apply Z.div_le_lower_bound; lia). lia. }
    rewrite !padStart_two_digits by lia.
    do 3 f_equal. f_equal. Z.to_euclidean_division_equations. lia.
Qed.

Lemma formatDuration_hours_witness :
  is_double 3661.5 = true /\ 0 <= 3661.5 /\ 3661.5 < inject_Z (2 ^ 53)
  /\ formatDuration 3661.5 = "1:01:01"%string
  /\ formatDuration 3599.5 = formatTime 3599.5.
Proof.
  split; [vm_compute; reflexivity|].
  split; [discriminate|]. split; [reflexivity|].
  rewrite (formatDuration_hours 3661.5)
    by (vm_compute; reflexivity || discriminate).
  rewrite (formatDuration_hours 3599.5)
    by (vm_compute; reflexivity || discriminate).
  split; reflexivity.
Defined.

End FormatFacts.

(** ** More on the editor's operations *)
Section EditorComposition.
Import Js JsNumber Editor Spec EditorView EditSpec Samples.
Local Open Scope Q_scope.

Lemma state_eq (a b : EditorState) :
  recordingDir a = recordingDir b -> st_segments a = st_segments b ->
  st_duration a = st_duration b -> st_summary a = st_summary b ->
  summarizing a = summarizing b -> saving a = saving b ->
  hasChanges a = hasChanges b -> status a = status b -> a = b.
Proof. destruct a, b; simpl; intros; subst; reflexivity. Qed.

Lemma segments_determine (f g : list TranscriptSegment -> list TranscriptSegment)
  (s : EditorState) :
  f (st_segments s) = g (st_segments s) ->
  setHasChanges true (setSegments f s) = setHasChanges true (setSegments g s).
Proof. intros E. apply state_eq; simpl; congruence. Qed.

Lemma retext_slot (i t : string) (seg : TranscriptSegment) :
  same_slot (if (id seg =? i)%string then with_text seg t else seg) seg.
Proof. destruct (id seg =? i)%string; repeat split. Qed.

Lemma relabel_slot (i sp : string) (seg : TranscriptSegment) :
  same_slot (if (id seg =? i)%string then with_speaker seg sp else seg) seg.
Proof. destruct (id seg =? i)%string; repeat split. Qed.

Lemma filter_map_same_id (g : TranscriptSegment -> TranscriptSegment)
  (i : string) (l : list TranscriptSegment) :
  (forall seg, id (g seg) = id seg) ->
  filter (fun seg => negb (id seg =? i)%string) (map g l)
  = map g (filter (fun seg => negb (id seg =? i)%string) l).
Proof.
  intros G. induction l as [|x l IH]; simpl; [reflexivity|].
  rewrite G. destruct (id x =? i)%string; simpl; now rewrite IH.
Qed.

(** X4: the three edits can be applied in any order: a deletion commutes
    with a text change, with a speaker change and with another deletion, and
    a text change commutes with a speaker change, whatever the ids. *)
Theorem edits_commute (i j t sp : string) (s : EditorState) :
  handleDelete i (handleTextChange j t s)
  = handleTextChange j t (handleDelete i s)
  /\ handleDelete i (handleSpeakerChange j sp s)
     = handleSpeakerChange j sp (handleDelete i s)
  /\ handleDelete i (handleDelete j s) = handleDelete j (handleDelete i s)
  /\ handleTextChange i t (handleSpeakerChange j sp s)
     = handleSpeakerChange j sp (handleTextChange i t s).
Proof.
  repeat split; apply state_eq; try reflexivity; simpl.
  - apply filter_map_same_id. intros seg. apply retext_slot.
  - apply filter_map_same_id. intros seg. apply relabel_slot.
  - induction (st_segments s) as [|x l IH]; simpl; [reflexivity|].
    destruct (id x =? j)%string eqn:J, (id x =? i)%string eqn:I; simpl;
      rewrite ?J, ?I; simpl; now rewrite IH.
  - rewrite !map_map. apply map_ext. intros seg.
    destruct (id seg =? j)%string eqn:J, (id seg =? i)%string eqn:I; simpl;
      rewrite ?J, ?I; reflexivity.
Qed.

(** X5: repeating an edit changes nothing more: a second deletion of the
    same id is void, and of two text changes (or two speaker changes) of the
    same id the later one wins. *)
Theorem edits_last_one_wins (i t t' : string) (s : EditorState) :
  handleDelete i (handleDelete i s) = handleDelete i s
  /\ handleTextChange i t (handleTextChange i t' s) = handleTextChange i t s
  /\ handleSpeakerChange i t (handleSpeakerChange i t' s)
     = handleSpeakerChange i t s.
Proof.
  repeat split; apply state_eq; try reflexivity; simpl.
  - induction (st_segments s) as [|x l IH]; simpl; [reflexivity|].
    destruct (id x =? i)%string eqn:I; simpl; rewrite ?I; simpl;
      now rewrite IH.
  - rewrite map_map. apply map_ext. intros seg.
    destruct (id seg =? i)%string eqn:I; simpl; rewrite I; reflexivity.
  - rewrite map_map. apply map_ext. intros seg.
    destruct (id seg =? i)%string eqn:I; simpl; rewrite I; reflexivity.
Qed.

(** X6: an edit with an id that no segment carries leaves the segment list
    as it is, and still marks the transcript as changed. *)
Theorem edit_of_unknown_id (e : Edit) (s : EditorState) :
  Forall (fun seg => id seg <> match e with
                               | TextChange i _ | SpeakerChange i _
                               | Delete i => i
                               end) (st_segments s) ->
  st_segments (apply_edit s e) = st_segments s
  /\ hasChanges (apply_edit s e) = true.
Proof.
  intros F. split; [|destruct e; reflexivity].
  destruct e as [i t | i sp | i]; simpl;
    induction F as [|x l Hx _ IH]; simpl; try reflexivity;
    apply String.eqb_neq in Hx; rewrite Hx; simpl; now rewrite IH.
Qed.

Lemma edit_of_unknown_id_witness :
  Forall (fun seg => id seg <> "zz"%string)
    (st_segments (onEditorData payload initial))
  /\ st_segments (apply_edit (onEditorData payload initial) (Delete "zz"))
     = [seg_a; seg_b]
  /\ hasChanges (apply_edit (onEditorData payload initial) (Delete "zz"))
     = true.
Proof.
  assert (F : Forall (fun seg => id seg <> "zz"%string)
                (st_segments (onEditorData payload initial)))
    by (repeat constructor; discriminate).
  split; [exact F|].
  exact (edit_of_unknown_id (Delete "zz") (onEditorData payload initial) F).
Defined.

End EditorComposition.

(** ** What a run of edits keeps *)
Section EditInvariants.
Import Js JsNumber Editor Spec EditorView EditSpec Samples.
Local Open Scope Q_scope.

Lemma drawn_from_refl (l : list TranscriptSegment) : drawn_from l l.
Proof.
  apply Forall_forall. intros seg H. exists seg. repeat split; assumption.
Qed.

Lemma drawn_from_trans (l1 l2 l3 : list TranscriptSegment) :
  drawn_from l1 l2 -> drawn_from l2 l3 -> drawn_from l1 l3.
Proof.
  unfold drawn_from. rewrite !Forall_forall. intros A B seg3 H3.
  destruct (B seg3 H3) as (seg2 & H2 & I2 & S2 & E2).
  destruct (A seg2 H2) as (seg1 & H1 & I1 & S1 & E1).
  exists seg1. repeat split; [assumption | congruence ..].
Qed.

Lemma drawn_from_map (g : TranscriptSegment -> TranscriptSegment)
  (l : list TranscriptSegment) :
  (forall seg, same_slot (g seg) seg) -> drawn_from l (map g l).
Proof.
  intros G. apply Forall_forall. intros seg' H.
  apply in_map_iff in H. destruct H as (seg & <- & H).
  exists seg. split; [exact H | apply G].
Qed.

Lemma drawn_from_filter (f : TranscriptSegment -> bool)
  (l : list TranscriptSegment) : drawn_from l (filter f l).
Proof.
  apply Forall_forall. intros seg H. apply filter_In in H.
  exists seg. repeat split. apply H.
Qed.

Lemma apply_edit_drawn (e : Edit) (s : EditorState) :
  drawn_from (st_segments s) (st_segments (apply_edit s e)).
Proof.
  destruct e as [i t | i sp | i]; simpl.
  - apply drawn_from_map. intros seg. apply retext_slot.
  - apply drawn_from_map. intros seg. apply relabel_slot.
  - apply drawn_from_filter.
Qed.

Lemma apply_edit_ids (e : Edit) (s : EditorState) :
  exists f,
    map id (st_segments (apply_edit s e))
    = filter f (map id (st_segments s)).
Proof.
  destruct e as [i t | i sp | i]; simpl.
  - exists (fun _ => true). rewrite map_map.
    rewrite (map_ext _ id (fun seg => proj1 (retext_slot i t seg))).
    induction (map id (st_segments s)) as [|x l IH]; simpl; congruence.
  - exists (fun _ => true). rewrite map_map.
    rewrite (map_ext _ id (fun seg => proj1 (relabel_slot i sp seg))).
    induction (map id (st_segments s)) as [|x l IH]; simpl; congruence.
  - exists (fun x => negb (x =? i)%string).
    induction (st_segments s) as [|x l IH]; simpl; [reflexivity|].
    destruct (id x =? i)%string; simpl; now rewrite IH.
Qed.

Lemma edits_drawn (edits : list Edit) (s : EditorState) :
  drawn_from (st_segments s) (st_segments (fold_left apply_edit edits s)).
Proof.
  revert s. induction edits as [|e edits IH]; intros s; simpl.
  - apply drawn_from_refl.
  - eapply drawn_from_trans; [apply apply_edit_drawn | apply IH].
Qed.

Lemma apply_edit_shorter (e : Edit) (s : EditorState) :
  (List.length (st_segments (apply_edit s e))
   <= List.length (st_segments s))%nat.
Proof.
  destruct e as [i t | i sp | i]; simpl;
    rewrite ?length_map; [lia | lia | apply filter_length_le].
Qed.

(** X7: whatever edits are made, every segment of the result stands in the
    slot of a segment of the list the edits started from, with the same id,
    start time and end time, and the list never grows: edits cannot move,
    stretch, add or renumber segments. *)
Theorem edits_keep_slots (edits : list Edit) (s : EditorState) :
  drawn_from (st_segments s) (st_segments (fold_left apply_edit edits s))
  /\ (List.length (st_segments (fold_left apply_edit edits s))
      <= List.length (st_segments s))%nat.
Proof.
  split; [apply edits_drawn|].
  revert s. induction edits as [|e edits IH]; intros s; simpl; [lia|].
  eapply Nat.le_trans; [apply IH | apply apply_edit_shorter].
Qed.

(** X8: if the ids are pairwise distinct and the segments sorted by start
    time, both still hold after any run of edits. *)
Theorem edits_keep_ids_distinct_and_order (edits : list Edit)
  (s : EditorState) :
  NoDup (map id (st_segments s)) ->
  sorted_by_start (st_segments s) = true ->
  NoDup (map id (st_segments (fold_left apply_edit edits s)))
  /\ sorted_by_start (st_segments (fold_left apply_edit edits s)) = true.
Proof.
  revert s. induction edits as [|e edits IH]; intros s N S; simpl.
  - split; assumption.
  - apply IH.
    + destruct (apply_edit_ids e s) as (f & ->). now apply NoDup_filter.
    + destruct e as [i t | i sp | i]; simpl.
      * apply sorted_map_same_start; [apply retext_start | exact S].
      * apply sorted_map_same_start; [apply relabel_start | exact S].
      * apply sorted_by_start_strongly, strongly_sorted_filter.
        now apply sorted_by_start_strongly.
Qed.

Lemma edits_keep_ids_distinct_and_order_witness :
  NoDup (map id (st_segments (onEditorData payload initial)))
  /\ sorted_by_start (st_segments (onEditorData payload initial)) = true
  /\ NoDup (map id (st_segments
              (fold_left apply_edit [TextChange "b" "x"; Delete "a"]
                 (onEditorData payload initial))))
  /\ sorted_by_start
       (st_segments
          (fold_left apply_edit [TextChange "b" "x"; Delete "a"]
             (onEditorData payload initial))) = true.
Proof.
  assert (N : NoDup (map id (st_segments (onEditorData payload initial)))).
  { simpl. repeat constructor; simpl; intuition discriminate. }
  split; [exact N|]. split; [reflexivity|].
  exact (edits_keep_ids_distinct_and_order
           [TextChange "b" "x"; Delete "a"]
           (onEditorData payload initial) N eq_refl).
Defined.

(** X9: the duration a save hands over is never too short: if the loaded
    duration bounds the end time of every loaded segment, it bounds the end
    time of every segment of the transcript built after any edits. *)
Theorem built_duration_bounds_end_times (p : EditorPayload)
  (s0 : EditorState) (edits : list Edit) :
  Forall (fun seg => end_time seg <= duration (transcript p))
    (segments (transcript p)) ->
  Forall
    (fun seg =>
       end_time seg
       <= duration
            (buildTranscript (fold_left apply_edit edits (onEditorData p s0))))
    (segments
       (buildTranscript (fold_left apply_edit edits (onEditorData p s0)))).
Proof.
  intros F.
  destruct (edits_frame edits (onEditorData p s0)) as [_ T].
  pose proof (edits_drawn edits (onEditorData p s0)) as D.
  simpl in T, D |- *. rewrite T.
  unfold drawn_from in D. rewrite Forall_forall in *.
  intros seg' H. destruct (D seg' H) as (seg & I & _ & _ & E).
  rewrite E. now apply F.
Qed.

Lemma built_duration_bounds_end_times_witness :
  Forall (fun seg => end_time seg <= duration (transcript payload))
    (segments (transcript payload))
  /\ Forall
       (fun seg => end_time seg <= 10)
       (segments
          (buildTranscript
             (fold_left apply_edit [Delete "b"]
                (onEditorData payload initial)))).
Proof.
  assert (F : Forall (fun seg => end_time seg <= duration (transcript payload))
                (segments (transcript payload)))
    by (repeat constructor; discriminate).
  split; [exact F|].
  exact (built_duration_bounds_end_times payload initial [Delete "b"] F).
Defined.

(** X10: opening a transcript whose full text is the one derived from its
    segments and building it again without an edit gives the transcript
    back. *)
Theorem load_then_build (p : EditorPayload) (s0 : EditorState) :
  full_text (transcript p) = derived_full_text (segments (transcript p)) ->
  buildTranscript (onEditorData p s0) = transcript p.
Proof.
  intros H. destruct p as [dir [segs ft d] sm]. simpl in *.
  unfold buildTranscript. simpl.
  rewrite join_newline_separated. subst ft. reflexivity.
Qed.

Lemma load_then_build_witness :
  full_text (transcript payload)
  = derived_full_text (segments (transcript payload))
  /\ buildTranscript (onEditorData payload initial) = loaded.
Proof.
  split; [reflexivity|].
  exact (load_then_build payload initial eq_refl).
Defined.

End EditInvariants.

(** ** The outcome of a save and of a regeneration, and the window *)
Section EditorOutcomes.
Import Js JsNumber Editor Spec EditorView EditSpec Samples.
Local Open Scope Q_scope.

Lemma handleSave_final
  (save_backend : string -> TranscriptionResult -> string + unit)
  (s : EditorState) :
  recordingDir s <> ""%string ->
  ui (run (handleSave save_backend) s)
  = match save_backend (recordingDir s) (buildTranscript s) with
    | inr _ => setSaving false (setStatus "Saved" (setHasChanges false s))
    | inl e => setSaving false (setStatus ("Save error: " ++ e) s)
    end.
Proof.
  intros H. apply String.eqb_neq in H.
  unfold run, handleSave, bind, get. simpl. rewrite H.
  unfold try_catch_finally, invoke_save, call, bind, set, ret. simpl.
  destruct (save_backend (recordingDir s) (buildTranscript s)); reflexivity.
Qed.

(** X11: a save from a state with a directory completes without throwing
    and ends with [saving] off.  If the back end resolves, the changes are
    marked saved and the status is "Saved"; if it rejects with [e], the
    changes stay marked and the status is "Save error: e".  Nothing else
    changes. *)
Theorem handleSave_outcome
  (save_backend : string -> TranscriptionResult -> string + unit)
  (s : EditorState) :
  recordingDir s <> ""%string ->
  fst (handleSave save_backend {| ui := s; invoked := [] |}) = inr tt
  /\ ui (run (handleSave save_backend) s)
     = match save_backend (recordingDir s) (buildTranscript s) with
       | inr _ =>
           setSaving false (setStatus "Saved" (setHasChanges false s))
       | inl e =>
           setSaving false (setStatus ("Save error: " ++ e) s)
       end.
Proof.
  intros H. split; [|exact (handleSave_final save_backend s H)].
  apply String.eqb_neq in H.
  unfold handleSave, bind, get. simpl. rewrite H.
  unfold try_catch_finally, invoke_save, call, bind, set, ret. simpl.
  destruct (save_backend (recordingDir s) (buildTranscript s)); reflexivity.
Qed.

Lemma handleSave_outcome_witness :
  recordingDir (handleDelete "b" (onEditorData payload initial)) <> ""%string
  /\ status
       (ui (run (handleSave (fun _ _ => inl "disk full"%string))
              (handleDelete "b" (onEditorData payload initial))))
     = "Save error: disk full"%string
  /\ hasChanges
       (ui (run (handleSave (fun _ _ => inl "disk full"%string))
              (handleDelete "b" (onEditorData payload initial))))
     = true.
Proof.
  split; [discriminate|].
  destruct (handleSave_outcome (fun _ _ => inl "disk full"%string)
              (handleDelete "b" (onEditorData payload initial)))
    as [_ E]; [discriminate|].
  rewrite E. split; reflexivity.
Defined.

(** X12: a regeneration asks for a summary of the transcript built from the
    current state exactly once, with or without a recording directory, and
    ends with [summarizing] off.  If the back end resolves, its result is
    the new summary; if it rejects, the summary is kept and the status
    reports the error.  The segments, the duration and the change mark are
    never touched. *)
Theorem handleRegenerate_outcome
  (summarize_backend : TranscriptionResult -> string + SummaryResult)
  (s : EditorState) :
  fst (handleRegenerate summarize_backend {| ui := s; invoked := [] |})
  = inr tt
  /\ invoked (run (handleRegenerate summarize_backend) s)
     = [summarize_transcript (buildTranscript s)]
  /\ ui (run (handleRegenerate summarize_backend) s)
     = match summarize_backend (buildTranscript s) with
       | inr result =>
           setSummarizing false
             (setStatus "Summary updated" (setSummary (Some result) s))
       | inl e =>
           setSummarizing false
             (setStatus ("Summarization error: " ++ e) s)
       end.
Proof.
  unfold run, handleRegenerate, bind, get. simpl.
  unfold try_catch_finally, invoke_summarize, call, bind, set, ret. simpl.
  destruct (summarize_backend (buildTranscript s)); repeat split.
Qed.

Lemma set_add_spec (acc : list string) (x y : string) :
  In y (set_add acc x) <-> In y acc \/ y = x.
Proof.
  unfold set_add. destruct (existsb (String.eqb x) acc) eqn:E.
  - apply existsb_exists in E. destruct E as (z & Hz & E).
    apply String.eqb_eq in E. subst z. intuition (subst; assumption).
  - rewrite in_app_iff. simpl. intuition.
Qed.

Lemma set_add_NoDup (acc : list string) (x : string) :
  NoDup acc -> NoDup (set_add acc x).
Proof.
  intros N. unfold set_add. destruct (existsb (String.eqb x) acc) eqn:E.
  - exact N.
  - apply NoDup_app; [exact N | repeat constructor; intros [] |].
    intros y Hy [E' | []]. subst y.
    assert (T : existsb (String.eqb x) acc = true).
    { apply existsb_exists. exists x. split; [exact Hy|].
      apply String.eqb_refl. }
    congruence.
Qed.

Lemma unique_from (l acc : list string) :
  NoDup acc ->
  NoDup (fold_left set_add l acc)
  /\ forall y, In y (fold_left set_add l acc) <-> In y acc \/ In y l.
Proof.
  revert acc. induction l as [|x l IH]; intros acc N; simpl.
  - split; [exact N | intuition].
  - destruct (IH (set_add acc x) (set_add_NoDup acc x N)) as [N' I].
    split; [exact N'|]. intros y. rewrite I, set_add_spec.
    intuition.
Qed.

Lemma speakers_In (segs : list TranscriptSegment) (x : string) :
  In x (speakers segs) <-> exists seg, In seg segs /\ speaker seg = x.
Proof.
  destruct (unique_from (map speaker segs) [] (NoDup_nil _)) as [_ I].
  unfold speakers, unique. rewrite I, in_map_iff. simpl. split.
  - intros [[] | (seg & E & H)]. now exists seg.
  - intros (seg & H & E). right. now exists seg.
Qed.

(** X13: the speakers offered are exactly the speakers of the segments,
    each once: no duplicate, none missing, none invented. *)
Theorem speakers_exact (segs : list TranscriptSegment) :
  NoDup (speakers segs)
  /\ forall x,
      In x (speakers segs) <-> exists seg, In seg segs /\ speaker seg = x.
Proof.
  split; [|apply speakers_In].
  apply (unique_from (map speaker segs) [] (NoDup_nil _)).
Qed.

(** X14: the window shows one row per segment, in order and keyed by the
    segment's id, and the speaker selected in a row is always one of the
    options of its select. *)
Theorem rows_match_segments (s : EditorState) (w : Window) :
  render s = EditorWindow w ->
  map key (rows w) = map id (st_segments s)
  /\ map area (rows w) = map text (st_segments s)
  /\ Forall (fun r => In (selected r) (options r)) (rows w).
Proof.
  unfold render. destruct (st_segments s) as [|x l] eqn:E; [discriminate|].
  intros H. injection H as <-. cbn [rows].
  change (render_row (speakers (x :: l)) x
          :: map (render_row (speakers (x :: l))) l)
    with (map (render_row (speakers (x :: l))) (x :: l)).
  rewrite !map_map. repeat split.
  apply Forall_forall. intros r Hr. apply in_map_iff in Hr.
  destruct Hr as (seg & <- & Hs). simpl.
  apply speakers_In. now exists seg.
Qed.

Lemma rows_match_segments_witness :
  exists w,
    render (onEditorData payload initial) = EditorWindow w
    /\ map key (rows w) = ["a"; "b"]%string
    /\ Forall (fun r => In (selected r) (options r)) (rows w).
Proof.
  eexists. split; [reflexivity|].
  destruct (rows_match_segments (onEditorData payload initial) _ eq_refl)
    as (K & _ & F).
  split; [exact K | exact F].
Defined.

(** X15: when an edit deletes every segment, the window falls back to the
    placeholder "No transcript loaded.", which has no save button, while the
    deletion is still marked as an unsaved change. *)
Theorem deleting_everything_hides_the_editor (i : string) (s : EditorState) :
  Forall (fun seg => id seg = i) (st_segments s) ->
  render (handleDelete i s) = EditorEmpty
  /\ hasChanges (handleDelete i s) = true.
Proof.
  intros F. split; [|reflexivity].
  unfold render. simpl.
  replace (filter (fun seg => negb (id seg =? i)%string) (st_segments s))
    with (@nil TranscriptSegment); [reflexivity|].
  induction F as [|x l Hx _ IH]; simpl; [reflexivity|].
  rewrite Hx, String.eqb_refl. exact IH.
Qed.

Lemma deleting_everything_hides_the_editor_witness :
  Forall (fun seg => id seg = "a"%string)
    (st_segments (handleDelete "b" (onEditorData payload initial)))
  /\ render (handleDelete "a" (handleDelete "b" (onEditorData payload initial)))
     = EditorEmpty
  /\ hasChanges
       (handleDelete "a" (handleDelete "b" (onEditorData payload initial)))
     = true.
Proof.
  assert (F : Forall (fun seg => id seg = "a"%string)
                (st_segments (handleDelete "b" (onEditorData payload initial))))
    by (repeat constructor).
  split; [exact F|].
  exact (deleting_everything_hides_the_editor "a" _ F).
Defined.

(** X16: in the window, the save button is enabled exactly when there are
    unsaved changes and no save is running; after a save that resolved it is
    disabled and reads "Saved", and after a save that was rejected it is
    enabled again and reads "Save". *)
Theorem save_button_follows_save
  (save_backend : string -> TranscriptionResult -> string + unit)
  (s : EditorState) :
  recordingDir s <> ""%string -> st_segments s <> [] ->
  hasChanges s = true ->
  exists w,
    render (ui (run (handleSave save_backend) s)) = EditorWindow w
    /\ match save_backend (recordingDir s) (buildTranscript s) with
       | inr _ =>
           save_disabled w = true /\ save_label w = "Saved"%string
           /\ header_status w = "Saved"%string
       | inl e =>
           save_disabled w = false /\ save_label w = "Save"%string
           /\ header_status w = ("Save error: " ++ e)%string
       end.
Proof.
  intros D N C.
  rewrite (handleSave_final save_backend s D).
  unfold render.
  destruct (save_backend (recordingDir s) (buildTranscript s)) as [e | []];
    simpl; destruct (st_segments s) as [|x l]; try congruence;
    eexists; (split; [reflexivity|]); simpl; rewrite ?C; repeat split.
Qed.

Lemma save_button_follows_save_witness :
  recordingDir (handleTextChange "a" "hello" (onEditorData payload initial))
  <> ""%string
  /\ exists w,
      render
        (ui (run (handleSave (fun _ _ => inr tt))
               (handleTextChange "a" "hello" (onEditorData payload initial))))
      = EditorWindow w
      /\ save_disabled w = true /\ save_label w = "Saved"%string.
Proof.
  split; [discriminate|].
  destruct (save_button_follows_save (fun _ _ => inr tt)
              (handleTextChange "a" "hello" (onEditorData payload initial)))
    as (w & R & A & B & _); [discriminate | discriminate | reflexivity |].
  exists w. split; [exact R | split; [exact A | exact B]].
Defined.

End EditorOutcomes.

(** ** The polling of the recording stats *)
Section PollingFacts.
Import Js Recorder.
Local Open Scope Q_scope.



Lemma check_milestone_state (import import' : string + Plugin)
  (stats : RecordingStats) (captured : list number)
  (st : PollState) (log log' : list Effect) (m : Milestone) :
  fst (check_milestone import stats captured (st, log) m)
  = fst (check_milestone import' stats captured (st, log') m).
Proof.
  unfold check_milestone.
  destruct (Qle_bool (secs m) (duration_secs stats)
            && negb (has captured (secs m))); reflexivity.
Qed.

Lemma fold_check_state (import import' : string + Plugin)
  (stats : RecordingStats) (captured : list number) (ms : list Milestone)
  (st : PollState) (log log' : list Effect) :
  fst (fold_left (check_milestone import stats captured) ms (st, log))
  = fst (fold_left (check_milestone import' stats captured) ms (st, log')).
Proof.
  revert st log log'.
  induction ms as [|m ms IH]; intros st log log'; cbn [fold_left].
  - reflexivity.
  - pose proof (check_milestone_state import import' stats captured
                  st log log' m) as E.
    destruct (check_milestone import stats captured (st, log) m) as [a la].
    destruct (check_milestone import' stats captured (st, log') m) as [b lb].
    simpl in E. subst b. apply IH.
Qed.

(** X18: whether the notification plugin loads, is permitted or fails has
    no influence on the cells: the elapsed time, the warning and the
    milestones reached after a tick are the same. *)
Theorem poll_state_ignores_notifications (import import' : string + Plugin)
  (reply : string + option RecordingStats) (st : PollState) :
  fst (poll_tick import reply st) = fst (poll_tick import' reply st).
Proof.
  destruct reply as [e | [stats|]]; try reflexivity.
  unfold poll_tick. apply fold_check_state.
Qed.

(** X19: a tick on which every milestone that is due has been reached
    before only updates the elapsed time: no warning, no notification, no
    timer. *)
Theorem poll_tick_quiet (import : string + Plugin) (stats : RecordingStats)
  (st : PollState) :
  (forall m, In m MILESTONES -> secs m <= duration_secs stats ->
             has (milestonesReached st) (secs m) = true) ->
  poll_tick import (inr (Some stats)) st
  = ({| elapsedTime := duration_secs stats; warning := warning st;
        milestonesReached := milestonesReached st |}, []).
Proof.
  intros H. unfold poll_tick.
  assert (Q : forall ms acc,
             (forall m, In m ms -> In m MILESTONES) ->
             fold_left
               (check_milestone import stats (milestonesReached st)) ms acc
             = acc).
  { induction ms as [|m ms IH]; intros acc I; [reflexivity|].
    cbn [fold_left].
    replace (check_milestone import stats (milestonesReached st) acc m)
      with acc; [apply IH; intros; apply I; now right|].
    unfold check_milestone. destruct acc as [a la].
    destruct (Qle_bool (secs m) (duration_secs stats)) eqn:L;
      [|reflexivity].
    rewrite (H m (I m (or_introl eq_refl))); [reflexivity|].
    now apply Qle_bool_iff. }
  apply Q. auto.
Qed.

Lemma poll_tick_quiet_witness :
  (forall m, In m MILESTONES -> secs m <= 2000 ->
             has [1800] (secs m) = true)
  /\ poll_tick (inl "no plugin"%string)
       (inr (Some {| duration_secs := 2000; system_samples_written := 0;
                     mic_samples_written := 0 |}))
       {| elapsedTime := 1995; warning := None; milestonesReached := [1800] |}
     = ({| elapsedTime := 2000; warning := None;
           milestonesReached := [1800] |}, []).
Proof.
  assert (H : forall m, In m MILESTONES -> secs m <= 2000 ->
                        has [1800] (secs m) = true).
  { intros m [<- | [<- | [<- | []]]] L; try reflexivity;
      exfalso; revert L; apply Qlt_not_le; reflexivity. }
  split; [exact H|].
  exact (poll_tick_quiet (inl "no plugin"%string)
           {| duration_secs := 2000; system_samples_written := 0;
              mic_samples_written := 0 |}
           {| elapsedTime := 1995; warning := None;
              milestonesReached := [1800] |} H).
Defined.

Lemma has_add_same (s : list number) (x : number) : has (add s x) x = true.
Proof.
  unfold add. destruct (has s x) eqn:E; [exact E|].
  unfold has. rewrite existsb_app. simpl.
  rewrite Qeq_bool_refl. now rewrite orb_true_r.
Qed.

Lemma has_add_mono (s : list number) (x y : number) :
  has s y = true -> has (add s x) y = true.
Proof.
  intros H. unfold add. destruct (has s x); [exact H|].
  unfold has in *. rewrite existsb_app.
  apply orb_true_iff. left. exact H.
Qed.

Lemma fold_check_records (import : string + Plugin) (stats : RecordingStats)
  (captured : list number) (ms : list Milestone)
  (st : PollState) (log : list Effect) :
  (forall x, has captured x = true -> has (milestonesReached st) x = true) ->
  let st' :=
    fst (fold_left (check_milestone import stats captured) ms (st, log)) in
  elapsedTime st' = elapsedTime st
  /\ (forall x, has (milestonesReached st) x = true ->
                has (milestonesReached st') x = true)
  /\ (forall m, In m ms -> secs m <= duration_secs stats ->
                has (milestonesReached st') (secs m) = true).
Proof.
  revert st log.
  induction ms as [|m ms IH]; intros st log C; cbn [fold_left].
  - repeat split; [auto | intros m []].
  - destruct (check_milestone import stats captured (st, log) m)
      as [st1 log1] eqn:E.
    assert (S1 : elapsedTime st1 = elapsedTime st
                 /\ (forall x, has (milestonesReached st) x = true ->
                               has (milestonesReached st1) x = true)
                 /\ (secs m <= duration_secs stats ->
                     has (milestonesReached st1) (secs m) = true)).
    { unfold check_milestone in E.
      destruct (Qle_bool (secs m) (duration_secs stats)) eqn:L;
        destruct (has captured (secs m)) eqn:K; cbn [negb andb] in E;
        injection E as <- _.
      - split; [reflexivity|]. split; [auto|]. intros _. now apply C.
      - cbn [elapsedTime milestonesReached].
        split; [reflexivity|]. split.
        + intros x. apply has_add_mono.
        + intros _. apply has_add_same.
      - split; [reflexivity|]. split; [auto|].
        intros L'. apply Qle_bool_iff in L'. congruence.
      - split; [reflexivity|]. split; [auto|].
        intros L'. apply Qle_bool_iff in L'. congruence. }
    destruct S1 as (A1 & B1 & D1).
    destruct (IH st1 log1 (fun x H => B1 x (C x H))) as (A & B & D).
    split; [congruence|]. split; [auto|].
    intros m' [<- | I] L; [apply B, D1, L | now apply D].
Qed.

(** X20: after every tick that got stats, before or after the first
    milestone, the elapsed time is the one reported and every milestone
    reached before is still reached; and every milestone that is due is
    recorded as reached. *)
Theorem poll_tick_records_due (import : string + Plugin)
  (stats : RecordingStats) (st : PollState) :
  elapsedTime (fst (poll_tick import (inr (Some stats)) st))
  = duration_secs stats
  /\ (forall x, has (milestonesReached st) x = true ->
        has (milestonesReached (fst (poll_tick import (inr (Some stats)) st)))
          x = true)
  /\ (forall m, In m MILESTONES -> secs m <= duration_secs stats ->
        has (milestonesReached (fst (poll_tick import (inr (Some stats)) st)))
          (secs m) = true).
Proof.
  unfold poll_tick.
  destruct (fold_check_records import stats (milestonesReached st) MILESTONES
              {| elapsedTime := duration_secs stats; warning := warning st;
                 milestonesReached := milestonesReached st |} []
              (fun x H => H)) as (A & B & D).
  split; [exact A|]. split; [exact B | exact D].
Qed.

Lemma poll_tick_records_due_witness :
  In {| secs := 60 * 60; label := "1 hour" |} MILESTONES
  /\ 60 * 60 <= 3601
  /\ elapsedTime
       (fst (poll_tick (inl "no plugin"%string)
               (inr (Some {| duration_secs := 12;
                             system_samples_written := 0;
                             mic_samples_written := 0 |}))
               {| elapsedTime := 7; warning := None;
                  milestonesReached := [] |}))
     = 12
  /\ has (milestonesReached
            (fst (poll_tick (inl "no plugin"%string)
                    (inr (Some {| duration_secs := 3601;
                                  system_samples_written := 0;
                                  mic_samples_written := 0 |}))
                    {| elapsedTime := 3596; warning := None;
                       milestonesReached := [1800] |})))
       (60 * 60) = true.
Proof.
  assert (I : In {| secs := 60 * 60; label := "1 hour" |} MILESTONES)
    by (right; left; reflexivity).
  assert (L : 60 * 60 <= 3601) by discriminate.
  split; [exact I|]. split; [exact L|].
  split.
  - exact (proj1 (poll_tick_records_due (inl "no plugin"%string)
             {| duration_secs := 12; system_samples_written := 0;
                mic_samples_written := 0 |}
             {| elapsedTime := 7; warning := None;
                milestonesReached := [] |})).
  - exact (proj2 (proj2 (poll_tick_records_due (inl "no plugin"%string)
             {| duration_secs := 3601; system_samples_written := 0;
                mic_samples_written := 0 |}
             {| elapsedTime := 3596; warning := None;
                milestonesReached := [1800] |}))
             {| secs := 60 * 60; label := "1 hour" |} I L).
Defined.



End PollingFacts.

(** ** The recorder window's handlers *)
Section RecorderUIFacts.
Import Js Async RecorderUI UISamples.

Ltac run_handler :=
  unfold after, startRecording, stopRecording, transcribeRecording,
    summarizeTranscript, openEditor, try_catch_finally, try_catch, bind,
    get, set, call, ret, start;
  cbn [fst snd cells sent].

(** X22: a rejected start changes only the status, so the last recording,
    its transcript and its summary are kept, while a start that resolves
    clears all three; a rejected stop leaves the window recording, so that
    stopping can be tried again.  Each sends its one command. *)
Theorem start_and_stop_outcome (b : Backend) (s : Cells) :
  sent (after (startRecording b) (start s)) = [start_recording]
  /\ cells (after (startRecording b) (start s))
     = match on_start b with
       | inr _ =>
           setSummary None
             (setTranscription None
                (setLastRecording None
                   (setStatus "Recording" (setIsRecording true s))))
       | inl e => setStatus ("Error: " ++ e) s
       end
  /\ sent (after (stopRecording b) (start s)) = [stop_recording]
  /\ cells (after (stopRecording b) (start s))
     = match on_stop b with
       | inr output =>
           setProcessingProgress idle
             (setLastRecording (Some output)
                (setStatus "Saved" (setIsRecording false s)))
       | inl e => setProcessingProgress idle (setStatus ("Error: " ++ e) s)
       end.
Proof.
  run_handler.
  destruct (on_start b) as [e | []], (on_stop b) as [e' | o];
    repeat split.
Qed.

(** X23: without a last recording, transcribing and opening the editor do
    nothing at all, and without a transcript, summarizing and opening the
    editor do nothing at all: no command is sent and no cell changes. *)
Theorem handlers_wait_for_their_input (b : Backend)
  (w1 w2 : World Cells Command) :
  lastRecording (cells w1) = None -> transcription (cells w2) = None ->
  transcribeRecording b w1 = (inr tt, w1)
  /\ openEditor b w1 = (inr tt, w1)
  /\ summarizeTranscript b w2 = (inr tt, w2)
  /\ openEditor b w2 = (inr tt, w2).
Proof.
  intros H1 H2. run_handler. rewrite H1, H2.
  repeat split. now destruct (lastRecording (cells w2)).
Qed.

Lemma handlers_wait_for_their_input_witness :
  lastRecording (cells (after (startRecording willing) (start initial)))
  = None
  /\ transcribeRecording failing
       (after (startRecording willing) (start initial))
     = (inr tt, after (startRecording willing) (start initial)).
Proof.
  split; [reflexivity|].
  exact (proj1 (handlers_wait_for_their_input failing
                  (after (startRecording willing) (start initial))
                  (after (startRecording willing) (start initial))
                  eq_refl eq_refl)).
Defined.

(** X24: with a last recording, transcribing sends one command for its
    directory, completes without throwing, and always ends with
    [transcribing] off and the progress bar idle.  If the back end resolves,
    the transcript is replaced and the summary cleared; if it rejects, both
    are kept and the status reports the error. *)
Theorem transcribeRecording_outcome (b : Backend) (s : Cells)
  (last : Recorder.RecordingOutput) :
  lastRecording s = Some last ->
  fst (transcribeRecording b (start s)) = inr tt
  /\ sent (after (transcribeRecording b) (start s))
     = [transcribe_recording (Recorder.directory last)]
  /\ cells (after (transcribeRecording b) (start s))
     = match on_transcribe b (Recorder.directory last) with
       | inr result =>
           setProcessingProgress idle
             (setTranscribing false
                (setStatus "Transcribed"
                   (setSummary None (setTranscription (Some result) s))))
       | inl e =>
           setProcessingProgress idle
             (setTranscribing false
                (setStatus ("Transcription error: " ++ e) s))
       end.
Proof.
  intros H. run_handler. rewrite H. cbn [fst snd cells sent].
  destruct (on_transcribe b (Recorder.directory last)); repeat split.
Qed.

Lemma transcribeRecording_outcome_witness :
  lastRecording (setLastRecording (Some output) initial) = Some output
  /\ transcription
       (cells (after (transcribeRecording failing)
                 (start (setLastRecording (Some output) initial))))
     = None
  /\ transcribing
       (cells (after (transcribeRecording failing)
                 (start (setLastRecording (Some output) initial))))
     = false.
Proof.
  split; [reflexivity|].
  destruct (transcribeRecording_outcome failing
              (setLastRecording (Some output) initial) output eq_refl)
    as (_ & _ & E).
  rewrite E. split; reflexivity.
Defined.

(** X25: a whole session on a back end that resolves: start, stop,
    transcribe, open the editor.  Whatever the window held before, the four
    commands are sent in this order, and the editor is opened on the
    directory of the recording just stopped, with the transcript just made
    and no summary. *)
Theorem session_opens_editor_on_new_transcript (b : Backend) (s : Cells)
  (out : Recorder.RecordingOutput) (t : Editor.TranscriptionResult) :
  on_start b = inr tt -> on_stop b = inr out ->
  on_transcribe b (Recorder.directory out) = inr t ->
  sent (after (openEditor b)
          (after (transcribeRecording b)
             (after (stopRecording b)
                (after (startRecording b) (start s)))))
  = [start_recording; stop_recording;
     transcribe_recording (Recorder.directory out);
     open_editor (Recorder.directory out) t None].
Proof.
  intros H1 H2 H3. run_handler. rewrite H1. cbn. rewrite H2. cbn.
  rewrite H3. cbn.
  destruct (on_open_editor b (Recorder.directory out) t None); reflexivity.
Qed.

Lemma session_opens_editor_on_new_transcript_witness :
  on_start willing = inr tt /\ on_stop willing = inr output
  /\ sent (after (openEditor willing)
             (after (transcribeRecording willing)
                (after (stopRecording willing)
                   (after (startRecording willing)
                      (start (setSummary
                                (Some {| Editor.summary := "old";
                                         Editor.key_points := [];
                                         Editor.action_items := [] |})
                                initial))))))
     = [start_recording; stop_recording; transcribe_recording "rec";
        open_editor "rec" Samples.loaded None].
Proof.
  split; [reflexivity|]. split; [reflexivity|].
  exact (session_opens_editor_on_new_transcript willing _ output
           Samples.loaded eq_refl eq_refl eq_refl).
Defined.

End RecorderUIFacts.

(** ** The setup wizard *)
Section SetupWizardFacts.
Import Js Async SetupWizard UISamples.

(** X26: the download of the language model.  [complete_setup] is sent only
    after [download_llm_model] has resolved, and the wizard reaches its last
    step only when both resolved; on a rejection the step is kept and the
    error shown.  In every case the handler ends with [downloading] off and
    the progress cleared, and an error left from an earlier attempt is
    cleared by a successful one. *)
Theorem downloadLlm_outcome (b : Backend) (s : Cells) :
  let w := snd (downloadLlm b (start s)) in
  match on_download_llm b (selectedLlm s) with
  | inl e =>
      sent w = [download_llm_model (selectedLlm s)]
      /\ cells w = setProgress None (setDownloading false (setError (Some e) s))
  | inr _ =>
      sent w = [download_llm_model (selectedLlm s); complete_setup]
      /\ cells w
         = match on_complete_setup b with
           | inl e =>
               setProgress None (setDownloading false (setError (Some e) s))
           | inr _ =>
               setProgress None
                 (setDownloading false (setStep complete (setError None s)))
           end
  end.
Proof.
  unfold downloadLlm, try_catch_finally, try_catch, bind, get, set, call,
    ret, start.
  cbn [fst snd cells sent].
  destruct (on_download_llm b (selectedLlm s)) as [e | []];
    cbn [fst snd cells sent]; [split; reflexivity|].
  destruct (on_complete_setup b) as [e | []]; split; reflexivity.
Qed.

(** X27: once both lists of models have arrived and nothing was chosen, the
    two selection effects choose the first model of each list, and the
    welcome step announces the size of the two together. *)
Theorem first_models_selected (s : Cells) (w l : ModelInfo)
  (ws ls : list ModelInfo) :
  whisperModels s = w :: ws -> llmModels s = l :: ls ->
  selectedWhisper s = ""%string -> selectedLlm s = ""%string ->
  selectedWhisper (selectFirstLlm (selectFirstWhisper s)) = id w
  /\ selectedLlm (selectFirstLlm (selectFirstWhisper s)) = id l
  /\ welcomeSize (selectFirstLlm (selectFirstWhisper s))
     = Format.formatBytes (size_bytes w + size_bytes l).
Proof.
  intros W L SW SL.
  unfold welcomeSize, selectedModel, selectFirstLlm, selectFirstWhisper.
  rewrite W, SW. cbn. rewrite L, SL. cbn. rewrite W, L. cbn.
  rewrite !String.eqb_refl. repeat split.
Qed.

Lemma first_models_selected_witness :
  whisperModels wizard = [tiny] /\ llmModels wizard = [small]
  /\ welcomeSize (selectFirstLlm (selectFirstWhisper wizard))
     = "2.0 KB"%string.
Proof.
  split; [reflexivity|]. split; [reflexivity|].
  destruct (first_models_selected wizard tiny small [] []
              eq_refl eq_refl eq_refl eq_refl) as (_ & _ & E).
  rewrite E. reflexivity.
Defined.

End SetupWizardFacts.
